(** * CustomRedux: store, reducer composer, shallow equality and Connect

    A shallow embedding of [src/store.js] ([combineReducers], [createStore]
    with its [getState], [subscribe] and [dispatch] closures) and of
    [src/Connect.js] ([shallowEqual], [Connect]).

    JavaScript values are a small tagged union; objects live in a heap and
    are compared by location, functions by reference.  An object has its
    own enumerable properties, its own properties that are not enumerable,
    and a prototype; reading a property walks the prototype chain.  The
    variables closed over by the store ([rootReducer], [middleware],
    [currentState], [listeners]) are fields of the [world], next to the
    heap.  The store's own functions are Rocq functions in a
    state-and-error monad over the world.  Application code handed to the
    store (reducers, listeners, function actions) is a program over what
    such code can do here: return, throw, allocate an object, read a
    property, call a function, among them the functions of the store.
    Calls may nest without bound (a listener may dispatch), so [call]
    carries a depth counter.

    The [listeners] array is a list: [push] appends to it, [filter] builds
    a new one, and [forEach] walks the elements present when it starts,
    which is what the array methods do when the array is only ever pushed
    to. *)

From Stdlib Require Import ZArith String List Lia.
From stdpp Require Import base strings list gmap pretty.

Open Scope string_scope.
Open Scope list_scope.

(** ** Values *)

Abbreviation loc := nat.

(** References to functions.  [FDispatch], [FGetState] and [FSubscribe] are
    the three closures of the store; [FClosure] is a closure created at run
    time by the library ([unSubscribe], [mainReducer]); [FUser] is a
    function of the application. *)
Inductive fnref :=
| FDispatch
| FGetState
| FSubscribe
| FClosure (id : nat)
| FUser (id : nat).

Inductive value :=
| VUndef
| VNull
| VBool (b : bool)
| VNum (n : Z)
| VStr (s : string)
| VObj (l : loc)
| VFun (f : fnref).

#[global] Instance fnref_eq_dec : EqDecision fnref.
Proof. solve_decision. Defined.

#[global] Instance value_eq_dec : EqDecision value.
Proof. solve_decision. Defined.

(** The own enumerable string-keyed properties of an object, in the order
    in which [Object.keys] lists them. *)
Abbreviation obj := (list (string * value)).

(** What else an object has: its prototype, and its own properties that
    are not enumerable, such as the [length] of an array or the members of
    [Object.prototype].  Properties are writable data properties, but for
    the accessor [__proto__] of [Object.prototype]. *)
Inductive protoref :=
| ProtoNull
| ProtoAt (l : loc).

Record shape := Shape {
  proto : protoref;
  hidden : obj
}.

Inductive closure :=
| UnSubscribe (listener : value)
| MainReducer (reducers : loc).

Inductive error :=
| Error (message : string)
| TypeError
| Thrown (v : value).

Definition InvalidActionShape : error := Error "Action should be plain object".
Definition MissingActionType : error := Error "Action must have a type".

(** Observation of the calls made to application functions: one event when
    the function is entered, one when it returns normally. *)
Inductive event :=
| Invoked (f : value) (args : list value)
| Returned (f : value) (v : value).

#[global] Instance event_eq_dec : EqDecision event.
Proof. solve_decision. Defined.

(** ** Host-language primitives *)

Definition typeof (v : value) : string :=
  match v with
  | VUndef => "undefined"
  | VNull => "object"
  | VBool _ => "boolean"
  | VNum _ => "number"
  | VStr _ => "string"
  | VObj _ => "object"
  | VFun _ => "function"
  end.

(** Truthiness, as consulted by [&&]. *)
Definition truthy (v : value) : bool :=
  match v with
  | VUndef | VNull => false
  | VBool b => b
  | VNum n => negb (n =? 0)%Z
  | VStr s => negb (s =? "")
  | VObj _ | VFun _ => true
  end.

(** [Object.is] and [===] / [!==] on the values modelled here. *)
Definition Object_is (a b : value) : bool := bool_decide (a = b).

Fixpoint obj_lookup (key : string) (o : obj) : option value :=
  match o with
  | [] => None
  | (k, v) :: o' => if k =? key then Some v else obj_lookup key o'
  end.

(** The array index that a property name denotes, if any: a decimal
    numeral without leading zero, below [2^32 - 1]. *)
Fixpoint numeral (s : string) (acc : N) : option N :=
  match s with
  | EmptyString => Some acc
  | String c s' =>
      let d := Ascii.N_of_ascii c in
      if ((48 <=? d) && (d <=? 57))%N
      then numeral s' (10 * acc + (d - 48))%N
      else None
  end.

Definition index_of (key : string) : option N :=
  match key with
  | EmptyString => None
  | String c rest =>
      if (Ascii.N_of_ascii c =? 48)%N && negb (rest =? "") then None
      else
        match numeral key 0 with
        | Some n => if (n <? 4294967295)%N then Some n else None
        | None => None
        end
  end.

(** The order of the own keys of an object: array indices first, in
    ascending order, then the other names, in the order of their
    creation. *)
Definition precedes (k k' : string) : bool :=
  match index_of k, index_of k' with
  | Some n, Some m => (n <? m)%N
  | Some _, None => true
  | None, Some _ => false
  | None, None => true
  end.

Fixpoint ordered (keys : list string) : bool :=
  match keys with
  | [] => true
  | k :: rest => forallb (precedes k) rest && ordered rest
  end.

Fixpoint obj_update (key : string) (v : value) (o : obj) : obj :=
  match o with
  | [] => []
  | (k, x) :: o' =>
      if k =? key then (k, v) :: o' else (k, x) :: obj_update key v o'
  end.

Fixpoint obj_insert (n : N) (key : string) (v : value) (o : obj) : obj :=
  match o with
  | [] => [(key, v)]
  | (k, x) :: o' =>
      match index_of k with
      | Some m =>
          if (m <? n)%N then (k, x) :: obj_insert n key v o'
          else (key, v) :: o
      | None => (key, v) :: o
      end
  end.

(** Setting a property: one that exists keeps its place; a new one goes
    where the order of keys puts it. *)
Definition obj_set (key : string) (v : value) (o : obj) : obj :=
  match obj_lookup key o with
  | Some _ => obj_update key v o
  | None =>
      match index_of key with
      | Some n => obj_insert n key v o
      | None => o ++ [(key, v)]
      end
  end.

Definition obj_keys (o : obj) : list string := o.*1.

(** The entry of a property list for [key], or [undefined]. *)
Definition obj_get (o : obj) (key : string) : value :=
  default VUndef (obj_lookup key o).

(** An object literal: later fields win. *)
Definition mk_obj (fields : list (string * value)) : obj :=
  foldl (fun o kv => obj_set kv.1 kv.2 o) [] fields.

Definition obj_at (h : gmap loc obj) (l : loc) : obj := default [] (h !! l).

Definition or_else (a b : option value) : option value :=
  match a with Some v => Some v | None => b end.

(** ** Own and inherited properties *)

Section Objects.
Variable h : gmap loc obj.
Variable sh : gmap loc shape.
(** Where [Object.prototype] is. *)
Variable op : loc.

(** An object without a shape of its own is as an object literal makes
    it: no property but the enumerable ones, and [Object.prototype] for
    prototype; [Object.prototype] itself then has no prototype. *)
Definition shape_in (l : loc) : shape :=
  match sh !! l with
  | Some s => s
  | None =>
      if decide (l = op) then Shape ProtoNull []
      else Shape (ProtoAt op) []
  end.

(** The own property [key] of the object at [l], enumerable or not. *)
Definition own_in (l : loc) (key : string) : option value :=
  or_else (obj_lookup key (obj_at h l)) (obj_lookup key (hidden (shape_in l))).

(** The object that holds [key], the nearest on the prototype chain that
    starts at [l]. *)
Fixpoint holder_in (fuel : nat) (l : loc) (key : string) : option loc :=
  match own_in l key with
  | Some _ => Some l
  | None =>
      match fuel, proto (shape_in l) with
      | S fuel', ProtoAt l' => holder_in fuel' l' key
      | _, _ => None
      end
  end.
End Objects.

(** The characters and the length of a string (of one-byte characters). *)
Definition string_own (s key : string) : option value :=
  if key =? "length" then Some (VNum (Z.of_nat (String.length s)))
  else
    match list_find (fun i : nat => pretty i = key)
            (seq 0 (String.length s)) with
    | Some (_, i) => Some (VStr (substring i 1 s))
    | None => None
    end.

Definition string_entries (s : string) : obj :=
  imap (fun i c => (pretty i, VStr (String c EmptyString)))
       (list_ascii_of_string s).

(** ** The world: the store's variables, the heap and the observation log *)

Record world := World {
  rootReducer : value;
  middleware : value;
  currentState : value;
  listeners : list value;
  closures : list closure;
  heap : gmap loc obj;
  log : list event;
  shapes : gmap loc shape;
  Object_prototype : loc
}.

Definition set_currentState (s : value) (w : world) : world :=
  World (rootReducer w) (middleware w) s (listeners w) (closures w)
        (heap w) (log w) (shapes w) (Object_prototype w).
Definition set_listeners (ls : list value) (w : world) : world :=
  World (rootReducer w) (middleware w) (currentState w) ls (closures w)
        (heap w) (log w) (shapes w) (Object_prototype w).
Definition set_closures (cs : list closure) (w : world) : world :=
  World (rootReducer w) (middleware w) (currentState w) (listeners w) cs
        (heap w) (log w) (shapes w) (Object_prototype w).
Definition set_heap (h : gmap loc obj) (w : world) : world :=
  World (rootReducer w) (middleware w) (currentState w) (listeners w)
        (closures w) h (log w) (shapes w) (Object_prototype w).
Definition set_log (lg : list event) (w : world) : world :=
  World (rootReducer w) (middleware w) (currentState w) (listeners w)
        (closures w) (heap w) lg (shapes w) (Object_prototype w).
Definition set_middleware (m : value) (w : world) : world :=
  World (rootReducer w) m (currentState w) (listeners w) (closures w)
        (heap w) (log w) (shapes w) (Object_prototype w).
Definition set_shapes (sh : gmap loc shape) (w : world) : world :=
  World (rootReducer w) (middleware w) (currentState w) (listeners w)
        (closures w) (heap w) (log w) sh (Object_prototype w).

Definition record (e : event) (w : world) : world :=
  set_log (log w ++ [e]) w.

Definition shape_at (w : world) (l : loc) : shape :=
  shape_in (shapes w) (Object_prototype w) l.

Definition own_prop (w : world) (l : loc) (key : string) : option value :=
  own_in (heap w) (shapes w) (Object_prototype w) l key.

(** A prototype chain without a cycle is no longer than there are shapes,
    plus the step from an object literal to [Object.prototype]. *)
Definition holder (w : world) (l : loc) (key : string) : option loc :=
  holder_in (heap w) (shapes w) (Object_prototype w)
            (S (size (shapes w))) l key.

(** [Object.prototype.__proto__], the one accessor of the model: it is
    what a lookup of ["__proto__"] finds when it ends at the hidden
    property of that name of [Object.prototype]. *)
Definition is_proto_accessor (w : world) (h : loc) (key : string) : bool :=
  (key =? "__proto__") && bool_decide (h = Object_prototype w)
  && bool_decide (obj_lookup key (obj_at (heap w) h) = None).

Definition getPrototypeOf (w : world) (l : loc) : value :=
  match proto (shape_at w l) with
  | ProtoNull => VNull
  | ProtoAt l' => VObj l'
  end.

(** The outcome of [v[key]]. *)
Inductive lookup :=
| Found (x : value)
| Unreadable
| Outside.

(** [v[key]]: reading a property off [undefined] or [null] is a
    [TypeError] ([Unreadable]); on an object the property is the own one
    or the one the prototype chain holds, [undefined] when there is none;
    a string has its length and its characters.  The members of
    [String.prototype], and the properties of numbers, booleans and
    functions, are outside the model: it has no answer there. *)
Definition get_prop (w : world) (v : value) (key : string) : lookup :=
  match v with
  | VUndef | VNull => Unreadable
  | VObj l =>
      match holder w l key with
      | Some h =>
          if is_proto_accessor w h key then Found (getPrototypeOf w l)
          else Found (default VUndef (own_prop w h key))
      | None => Found VUndef
      end
  | VStr s =>
      match string_own s key with
      | Some x => Found x
      | None => Outside
      end
  | _ => Outside
  end.

(** The value of [v[key]] where it has one. *)
Definition prop (w : world) (v : value) (key : string) : value :=
  match get_prop w v key with
  | Found x => x
  | _ => VUndef
  end.

(** A location not in use. *)
Definition fresh_loc (w : world) : loc :=
  fresh ({[Object_prototype w]} ∪ dom (heap w) ∪ dom (shapes w)).

(** Allocation of a new object, as an object literal makes it. *)
Definition alloc (o : obj) (w : world) : loc * world :=
  let l := fresh_loc w in (l, set_heap (<[l := o]> (heap w)) w).

(** [o[key] = v] on the world: through the setter of [__proto__] when
    that is what the lookup of [key] finds, in which case an object or
    [null] becomes the prototype of [o] and any other value is dropped;
    into the own property of [o] otherwise, which is added when [o] has
    none.  Objects are extensible.  Making a function a prototype is
    outside the model; the store assigns to objects that it has just
    made, to which nothing refers, so that a prototype chain cannot be
    made to loop. *)
Definition assign (o : loc) (key : string) (v : value) (w : world)
  : option world :=
  let own :=
    if bool_decide (obj_lookup key (obj_at (heap w) o) = None)
       && bool_decide (is_Some (obj_lookup key (hidden (shape_at w o))))
    then set_shapes
           (<[o := Shape (proto (shape_at w o))
                         (obj_set key v (hidden (shape_at w o)))]> (shapes w))
           w
    else set_heap (<[o := obj_set key v (obj_at (heap w) o)]> (heap w)) w in
  match holder w o key with
  | Some h =>
      if is_proto_accessor w h key then
        match v with
        | VObj l =>
            Some (set_shapes
                    (<[o := Shape (ProtoAt l) (hidden (shape_at w o))]>
                       (shapes w)) w)
        | VNull =>
            Some (set_shapes
                    (<[o := Shape ProtoNull (hidden (shape_at w o))]>
                       (shapes w)) w)
        | VFun _ => None
        | _ => Some w
        end
      else Some own
  | None => Some own
  end.

(** ** Outcomes and the monad of the store's code *)

(** [Timeout] is the absence of an outcome: the call depth is used up, or
    the step is outside the model. *)
Inductive result (A : Type) :=
| Done (v : A) (w : world)
| Fail (e : error) (w : world)
| Timeout.
Arguments Done {A} v w.
Arguments Fail {A} e w.
Arguments Timeout {A}.

Definition M (A : Type) : Type := world -> result A.

Definition ret {A} (v : A) : M A := fun w => Done v w.
Definition throw {A} (e : error) : M A := fun w => Fail e w.
Definition bind {A B} (m : M A) (k : A -> M B) : M B :=
  fun w =>
    match m w with
    | Done v w' => k v w'
    | Fail e w' => Fail e w'
    | Timeout => Timeout
    end.

Notation "'let*' x ':=' m 'in' k" := (bind m (fun x => k))
  (at level 10, x name, m at level 100, k at level 200).
Notation "m ';;' k" := (bind m (fun _ => k))
  (at level 100, k at level 200, right associativity).

Definition get {A} (f : world -> A) : M A := fun w => Done (f w) w.
Definition modify (f : world -> world) : M unit := fun w => Done tt (f w).

(** ** Application code *)

(** [NewObj] is an object literal with computed keys: every field becomes
    an own property. *)
Inductive prog :=
| Ret (v : value)
| Throw (v : value)
| NewObj (fields : list (string * value)) (k : value -> prog)
| GetProp (o : value) (key : string) (k : value -> prog)
| Call (f : value) (args : list value) (k : value -> prog).

Definition arg (i : nat) (args : list value) : value :=
  default VUndef (args !! i).

Definition new_object (fields : list (string * value)) : M value :=
  fun w => let '(l, w') := alloc (mk_obj fields) w in Done (VObj l) w'.

(** [v[key]] as an expression. *)
Definition read (v : value) (key : string) : M value :=
  fun w =>
    match get_prop w v key with
    | Found x => Done x w
    | Unreadable => Fail TypeError w
    | Outside => Timeout
    end.

(** [o[key] = v] on an object reference. *)
Definition write (o : loc) (key : string) (v : value) : M value :=
  fun w =>
    match assign o key v w with
    | Some w' => Done v w'
    | None => Timeout
    end.

Definition new_closure (c : closure) : M value :=
  let* id := get (fun w => length (closures w)) in
  modify (fun w => set_closures (closures w ++ [c]) w) ;;
  ret (VFun (FClosure id)).

Fixpoint forEach {A} (xs : list A) (f : A -> M value) : M unit :=
  match xs with
  | [] => ret tt
  | x :: xs' => f x ;; forEach xs' f
  end.

(** ** store.js *)

Section Open.
(** How a function value is called; tied to [call] below. *)
Variable call : value -> list value -> M value.

Fixpoint exec (p : prog) : M value :=
  match p with
  | Ret v => ret v
  | Throw v => throw (Thrown v)
  | NewObj fields k => let* o := new_object fields in exec (k o)
  | GetProp o key k => let* v := read o key in exec (k v)
  | Call f args k => let* v := call f args in exec (k v)
  end.

(** [combineReducers]: the returned [mainReducer], with [reducers] the
    object captured by the closure. *)
Definition mainReducer (reducers : loc) (state action : value) : M value :=
  let* newStore := get fresh_loc in
  modify (fun w => set_heap (<[newStore := []]> (heap w)) w) ;;
  let* keys := get (fun w => obj_keys (obj_at (heap w) reducers)) in
  forEach keys (fun item =>
    let* r := read (VObj reducers) item in
    let* s := read state item in
    let* v := call r [s; action] in
    write newStore item v) ;;
  ret (VObj newStore).

Definition getState : M value := get currentState.

Definition unSubscribe (listener : value) : M value :=
  modify (fun w =>
    set_listeners (filter (fun item => item ≠ listener) (listeners w)) w) ;;
  ret VUndef.

Definition subscribe (listener : value) : M value :=
  modify (fun w => set_listeners (listeners w ++ [listener]) w) ;;
  new_closure (UnSubscribe listener).

Definition dispatch (action : value) : M value :=
  let* mw := get middleware in
  if truthy mw && (typeof action =? "function") then
    call action [VFun FDispatch; VFun FGetState]
  else if negb (typeof action =? "object") then
    throw InvalidActionShape
  else
    let* type := read action "type" in
    if typeof type =? "undefined" then
      throw MissingActionType
    else
      let* reducer := get rootReducer in
      let* state := get currentState in
      let* newState := call reducer [state; action] in
      modify (set_currentState newState) ;;
      let* ls := get listeners in
      forEach ls (fun listener => call listener []) ;;
      ret action.
End Open.

Definition combineReducers (reducers : loc) : M value :=
  new_closure (MainReducer reducers).

Section Store.
(** The functions of the application: [app id args] is the body of
    function [id] applied to [args]. *)
Variable app : nat -> list value -> prog.

(** Calling a function value, with at most [n] nested calls. *)
Fixpoint call (n : nat) (f : value) (args : list value) : M value :=
  match n with
  | 0 => fun _ => Timeout
  | S n' =>
      match f with
      | VFun FDispatch => dispatch (call n') (arg 0 args)
      | VFun FGetState => getState
      | VFun FSubscribe => subscribe (arg 0 args)
      | VFun (FClosure id) =>
          let* c := get (fun w => closures w !! id) in
          match c with
          | Some (UnSubscribe listener) => unSubscribe listener
          | Some (MainReducer reducers) =>
              mainReducer (call n') reducers (arg 0 args) (arg 1 args)
          | None => throw TypeError
          end
      | VFun (FUser id) =>
          modify (record (Invoked f args)) ;;
          let* v := exec (call n') (app id args) in
          modify (record (Returned f v)) ;;
          ret v
      | _ => throw TypeError
      end
  end.

Definition createStore (n : nat) (reducer initialState middleware : value)
  : M value :=
  fun w0 =>
    (let* action := new_object [("type", VStr "@INIT")] in
     dispatch (call n) action ;;
     new_object [("dispatch", VFun FDispatch);
                 ("subscribe", VFun FSubscribe);
                 ("getState", VFun FGetState)])
      (World reducer middleware initialState [] (closures w0) (heap w0)
             (log w0) (shapes w0) (Object_prototype w0)).
End Store.

(** ** Connect.js: shallowEqual *)

(** [Object.keys(v)]: the own enumerable keys. *)
Definition Object_keys (w : world) (v : value) : list string :=
  match v with VObj l => obj_keys (obj_at (heap w) l) | _ => [] end.

(** [Object.prototype.hasOwnProperty.call(v, key)]: an own property,
    enumerable or not. *)
Definition has_own (w : world) (v : value) (key : string) : bool :=
  match v with
  | VObj l => bool_decide (is_Some (own_prop w l key))
  | _ => false
  end.

Definition shallowEqual (w : world) (objA objB : value) : bool :=
  if Object_is objA objB then true
  else if negb (typeof objA =? "object") || bool_decide (objA = VNull)
          || negb (typeof objB =? "object") || bool_decide (objB = VNull)
  then false
  else
    let keysA := Object_keys w objA in
    let keysB := Object_keys w objB in
    if negb (length keysA =? length keysB)%nat then false
    else
      forallb (fun key =>
        negb (negb (has_own w objB key)
              || negb (Object_is (prop w objA key) (prop w objB key))))
        keysA.

(** ** Observations used by the statements *)

(** The application functions entered, with their arguments, in order. *)
Definition invocations (lg : list event) : list (value * list value) :=
  omap (fun e =>
    match e with
    | Invoked f args => Some (f, args)
    | Returned _ _ => None
    end) lg.

(** A call that returns and touches nothing of the store: whatever the
    world, it only allocates and leaves its own two events in the log. *)
Definition inert (app : nat -> list value -> prog) (n : nat)
    (f : value) (args : list value) : Prop :=
  forall w, exists v h',
    heap w ⊆ h' /\
    call app n f args w =
      Done v (set_log (log w ++ [Invoked f args; Returned f v])
                      (set_heap h' w)).

(** The action takes the plain path of [dispatch], not the function one. *)
Definition plain_path (w : world) (action : value) : bool :=
  negb (truthy (middleware w) && (typeof action =? "function")).

(** How often [f] occurs in a listener list, and how often it is entered
    in a stretch of the log. *)
Definition occurrences (f : value) (ls : list value) : nat :=
  length (filter (fun x => x = f) ls).

Definition entered (f : value) (lg : list event) : nat :=
  length (filter (fun i => i.1 = f) (invocations lg)).

(** The events of calling the slice reducers [rs] in turn on the slices of
    [state] as they read in [w], with results [vs]. *)
Definition slice_events (w : world) (state action : value) (rs : obj)
    (vs : list value) : list event :=
  concat (zip_with (fun kr v =>
    [Invoked kr.2 [prop w state kr.1; action]; Returned kr.2 v]) rs vs).

(** Every prototype is an allocated object. *)
Definition closed (w : world) : Prop :=
  is_Some (heap w !! Object_prototype w) /\
  forall l s l', shapes w !! l = Some s -> proto s = ProtoAt l' ->
    is_Some (heap w !! l').

(** The same outcome, in a store configured with middleware [m]. *)
Definition with_middleware {A} (m : value) (r : result A) : result A :=
  match r with
  | Done v w => Done v (set_middleware m w)
  | Fail e w => Fail e (set_middleware m w)
  | Timeout => Timeout
  end.

(** A computation that behaves the same whether the store was configured
    with [m1] or with [m2], and leaves the configuration alone. *)
Definition indifferent (m1 m2 : value) {A} (c : M A) : Prop :=
  forall w, middleware w = m1 ->
    c (set_middleware m2 w) = with_middleware m2 (c w) /\
    match c w with
    | Done _ w' | Fail _ w' => middleware w' = m1
    | Timeout => True
    end.

(** Application code that only allocates, reads objects and reads the
    state of the store. *)
Inductive local : prog -> Prop :=
| local_Ret v : local (Ret v)
| local_NewObj fields k :
    (forall v, local (k v)) -> local (NewObj fields k)
| local_GetProp l key k :
    (forall v, local (k v)) -> local (GetProp (VObj l) key k)
| local_getState args k :
    (forall v, local (k v)) -> local (Call (VFun FGetState) args k).

(** ** A small application

    Function 0 is a counter reducer,
    [(state = 0, action) => action.type === 'INCREMENT' ? state + 1 : state];
    function 1 a listener that ignores the store; function 2 a listener
    that reads the state; function 3 a function action,
    [(dispatch, getState) => { dispatch({type: 'INCREMENT'}) }];
    function 4 a reducer [(state = 'anonymous', action) => state]. *)
Definition demo (id : nat) (args : list value) : prog :=
  match id with
  | 0 =>
      GetProp (arg 1 args) "type" (fun type =>
        let state :=
          match arg 0 args with VUndef => VNum 0 | s => s end in
        match state with
        | VNum c =>
            if decide (type = VStr "INCREMENT") then Ret (VNum (c + 1))
            else Ret state
        | _ => Ret state
        end)
  | 1 => Ret VUndef
  | 2 => Call (VFun FGetState) [] (fun _ => Ret VUndef)
  | 3 =>
      NewObj [("type", VStr "INCREMENT")] (fun action =>
        Call (arg 0 args) [action] (fun _ => Ret VUndef))
  | 4 =>
      match arg 0 args with
      | VUndef => Ret (VStr "anonymous")
      | s => Ret s
      end
  | _ => Ret VUndef
  end.

Definition counterReducer : value := VFun (FUser 0).
Definition silentListener : value := VFun (FUser 1).
Definition readingListener : value := VFun (FUser 2).
Definition incrementLater : value := VFun (FUser 3).
Definition nameReducer : value := VFun (FUser 4).

(** The realm of the examples: [Object.prototype] at location 1000, with
    some of its members.  The functions among them stand for those of the
    host; the examples do not call them. *)
Definition realm : loc := 1000.

Definition Object : value := VFun (FUser 100).

Definition Object_prototype_members : obj :=
  [("constructor", Object);
   ("__proto__", VUndef);
   ("hasOwnProperty", VFun (FUser 101));
   ("isPrototypeOf", VFun (FUser 102));
   ("toString", VFun (FUser 103));
   ("valueOf", VFun (FUser 104))].

Definition realm_shapes : gmap loc shape :=
  {[ realm := Shape ProtoNull Object_prototype_members ]}.

Definition empty_world : world :=
  World VUndef VUndef VUndef [] [] {[ realm := [] ]} [] realm_shapes realm.

(** A counter store at 0 with two listeners, the action
    [{type: 'INCREMENT'}] at location 0 and the object [{}] at location 1. *)
Definition demo_store (mw : value) : world :=
  World counterReducer mw (VNum 0) [silentListener; readingListener] []
        {[ 0 := [("type", VStr "INCREMENT")]; 1 := []; realm := [] ]} []
        realm_shapes realm.

(** The same store once the reducer has run on that action. *)
Definition demo_reduced (mw : value) : world :=
  set_log [Invoked counterReducer [VNum 0; VObj 0];
           Returned counterReducer (VNum 1)] (demo_store mw).

(** The counter store after [subscribe(nameReducer)], used as a listener,
    and after [subscribe(readingListener)], already a listener. *)
Definition demo_subscribed : world :=
  set_closures [UnSubscribe nameReducer]
    (set_listeners [silentListener; readingListener; nameReducer]
       (demo_store VUndef)).

Definition demo_resubscribed : world :=
  set_closures [UnSubscribe readingListener]
    (set_listeners [silentListener; readingListener; readingListener]
       (demo_store VUndef)).

Definition demo_reduction : list event :=
  [Invoked counterReducer [VNum 0; VObj 0];
   Returned counterReducer (VNum 1)].

(** The world in which construction of a counter store calls the reducer,
    and the world in which that call returns. *)
Definition demo_init : world :=
  World counterReducer VUndef VUndef [] []
        {[ realm := []; 1001 := [("type", VStr "@INIT")] ]} []
        realm_shapes realm.

Definition demo_initialised : world :=
  set_log [Invoked counterReducer [VUndef; VObj 1001];
           Returned counterReducer (VNum 0)] demo_init.

(** Reducers [{counter, name}] at location 0, the state [{counter: 5}] at
    location 1, an action at location 2, the state [{}] at location 3, and
    the combined reducer as closure 0. *)
Definition demo_slices : world :=
  World VUndef VUndef VUndef [] [MainReducer 0]
        {[ 0 := [("counter", counterReducer); ("name", nameReducer)];
           1 := [("counter", VNum 5)];
           2 := [("type", VStr "INCREMENT")];
           3 := [];
           realm := [] ]} [] realm_shapes realm.

(** Reducers over slices with the names of two members of
    [Object.prototype]: [{constructor: nameReducer}] at location 0 and an
    object whose own property [__proto__] is the counter reducer at
    location 1; the state [{}] at location 2, an action at location 3, and
    a state whose own property [__proto__] is 5, as [JSON.parse] makes
    it, at location 4. *)
Definition demo_inherited_slices : world :=
  World VUndef VUndef VUndef [] []
        {[ 0 := [("constructor", nameReducer)];
           1 := [("__proto__", counterReducer)];
           2 := [];
           3 := [("type", VStr "INCREMENT")];
           4 := [("__proto__", VNum 5)];
           realm := [] ]} [] realm_shapes realm.

(** The counter store with an action that inherits its [type]: the object
    at location 2 has no property of its own and the object
    [{type: 'INCREMENT'}] at location 0 for prototype. *)
Definition demo_inheriting : world :=
  set_shapes (<[2 := Shape (ProtoAt 0) []]> realm_shapes)
    (set_heap (<[2 := []]> (heap (demo_store VUndef))) (demo_store VUndef)).

(** Objects to compare: [{count: 5}] twice, [{user: u}] twice with the
    same [u], and once with another object of the same contents. *)
Definition demo_props : world :=
  set_heap
    {[ 0 := [("count", VNum 5)];
       1 := [("count", VNum 5)];
       2 := [("user", VObj 4)];
       3 := [("user", VObj 4)];
       4 := [("name", VStr "ada")];
       5 := [("user", VObj 6)];
       6 := [("name", VStr "ada")];
       realm := [] ]} empty_world.

(** The object [{length: 1}] at location 0, the array [['v']] at location
    1 and the object [{0: 'v'}] at location 2; [Array.prototype] is at
    location 999. *)
Definition demo_array : world :=
  World VUndef VUndef VUndef [] []
        {[ 0 := [("length", VNum 1)];
           1 := [("0", VStr "v")];
           2 := [("0", VStr "v")];
           999 := [];
           realm := [] ]} []
        (<[1 := Shape (ProtoAt 999) [("length", VNum 1)]]>
           (<[999 := Shape (ProtoAt realm)
                       [("length", VNum 0); ("constructor", VFun (FUser 105));
                        ("push", VFun (FUser 106));
                        ("filter", VFun (FUser 107));
                        ("forEach", VFun (FUser 108))]]> realm_shapes))
        realm.

(** ** What every operation of the store keeps

    [grows w w']: from [w] to [w'] the reducer and the middleware are the
    same, the closures created so far are still there, and every object
    of [w] is in [w'] with the same properties and the same prototype. *)
Definition used (w : world) : gset loc :=
  {[Object_prototype w]} ∪ dom (heap w) ∪ dom (shapes w).

Definition grows (w w' : world) : Prop :=
  rootReducer w' = rootReducer w /\
  middleware w' = middleware w /\
  closures w `prefix_of` closures w' /\
  heap w ⊆ heap w' /\
  Object_prototype w' = Object_prototype w /\
  forall l, l ∈ used w -> shapes w' !! l = shapes w !! l.

Definition keeps {A} (c : M A) : Prop :=
  forall w,
    match c w with
    | Done _ w' | Fail _ w' => grows w w'
    | Timeout => True
    end.

(** A call that fails at once: it is entered, allocates at most, and
    raises [e]. *)
Definition throws (app : nat -> list value -> prog) (n : nat)
    (f : value) (args : list value) (e : error) : Prop :=
  forall w, exists h',
    heap w ⊆ h' /\
    call app n f args w =
      Fail e (set_log (log w ++ [Invoked f args]) (set_heap h' w)).

(** ** More application code

    Function 5 throws; function 6 maps the state to props,
    [state => ({count: state})]; function 7 maps [dispatch] to props,
    [dispatch => ({increment: dispatch})]; function 8 is a listener that
    subscribes the silent listener; function 9 a listener that calls the
    first function handed out by [subscribe]; function 10 is a reducer
    that rejects one action,
    [(state = 0, action) => { if (action.type === 'FAIL') throw 'failed';
    return state }]; function 11 is a listener that returns the state it
    reads, [() => getState()]; function 12 maps the state to props,
    [state => ({length: state})]; the others are those of [demo]. *)
Definition demo_ui (id : nat) (args : list value) : prog :=
  match id with
  | 5 => Throw (VStr "failed")
  | 6 => NewObj [("count", arg 0 args)] Ret
  | 7 => NewObj [("increment", arg 0 args)] Ret
  | 8 => Call (VFun FSubscribe) [VFun (FUser 1)] (fun _ => Ret VUndef)
  | 9 => Call (VFun (FClosure 0)) [] (fun _ => Ret VUndef)
  | 10 =>
      GetProp (arg 1 args) "type" (fun type =>
        if decide (type = VStr "FAIL") then Throw (VStr "failed")
        else match arg 0 args with VUndef => Ret (VNum 0) | s => Ret s end)
  | 11 => Call (VFun FGetState) [] Ret
  | 12 => NewObj [("length", arg 0 args)] Ret
  | _ => demo id args
  end.

Definition faulty : value := VFun (FUser 5).
Definition mapState : value := VFun (FUser 6).
Definition mapDispatch : value := VFun (FUser 7).
Definition recruiter : value := VFun (FUser 8).
Definition dismisser : value := VFun (FUser 9).
Definition strictReducer : value := VFun (FUser 10).
Definition echoListener : value := VFun (FUser 11).
Definition mapLength : value := VFun (FUser 12).

(** The counter store with a faulty listener between the two others. *)
Definition demo_faulty : world :=
  set_listeners [silentListener; faulty; readingListener] (demo_store VUndef).

(** The counter store with a listener that returns the state it reads in
    front of the two others. *)
Definition demo_echo : world :=
  set_listeners [echoListener; silentListener; readingListener]
    (demo_store VUndef).

(** The store that [createStore(strictReducer, 0)] builds, at location
    1002, its initial action at 1001, once the silent listener has been
    subscribed and the action [{type: 'FAIL'}] allocated at 1003. *)
Definition demo_strict : world :=
  World strictReducer VUndef (VNum 0) [silentListener]
        [UnSubscribe silentListener]
        {[ realm := [];
           1001 := [("type", VStr "@INIT")];
           1002 := [("dispatch", VFun FDispatch);
                    ("subscribe", VFun FSubscribe);
                    ("getState", VFun FGetState)];
           1003 := [("type", VStr "FAIL")] ]}
        [Invoked strictReducer [VNum 0; VObj 1001];
         Returned strictReducer (VNum 0)]
        realm_shapes realm.

(** A reducer that is a function of the state and of the own properties
    of a well-formed action, and keeps to itself. *)
Definition computes (app : nat -> list value -> prog) (n : nat)
    (reducer : value) (red : value -> obj -> value) : Prop :=
  forall w s la,
    obj_get (obj_at (heap w) la) "type" <> VUndef ->
    exists h',
      heap w ⊆ h' /\
      call app n reducer [s; VObj la] w =
        Done (red s (obj_at (heap w) la))
          (set_log (log w ++ [Invoked reducer [s; VObj la];
                              Returned reducer (red s (obj_at (heap w) la))])
                   (set_heap h' w)).

(** What the counter reducer of [demo] computes. *)
Definition counter_step (s : value) (action : obj) : value :=
  match s with
  | VUndef =>
      if decide (obj_get action "type" = VStr "INCREMENT") then VNum 1
      else VNum 0
  | VNum c =>
      if decide (obj_get action "type" = VStr "INCREMENT") then VNum (c + 1)
      else VNum c
  | _ => s
  end.

(** [demo_slices] with the closure built over the empty object at
    location 3. *)
Definition demo_no_slices : world :=
  set_closures [MainReducer 3] demo_slices.

(** Two objects with the same enumerable own properties, whatever their
    order. *)
Definition same_props (a b : obj) : Prop :=
  forall key, obj_lookup key a = obj_lookup key b.

(** ** Connect.js: Connect

    What the wrapper keeps between renders is a record: the cell of
    [useRef] and the counter of [useReducer(x => x + 1, 0)], which
    [forComponentUpdate()] increments.  The store comes from the context;
    scheduling of renders and effects is React's and is not modelled. *)
Record instance := Instance {
  previousStateRef : value;
  forcedUpdates : nat
}.

(** [{...v}]: the own enumerable properties an object spread copies; of a
    string, its characters. *)
Definition spread (h : gmap loc obj) (v : value) : obj :=
  match v with
  | VObj l => obj_at h l
  | VStr s => string_entries s
  | _ => []
  end.

(** [{...stateProps, ...dispatchProps, ...props}]. *)
Definition enhance (stateProps dispatchProps props : value) : M value :=
  let* h := get heap in
  new_object (spread h stateProps ++ spread h dispatchProps ++ spread h props).

Section Connect.
Variable call : value -> list value -> M value.
Variables mstp mdtp : value.

(** [o.name(args)]. *)
Definition invoke (o : value) (name : string) (args : list value) : M value :=
  let* f := read o name in call f args.

(** The function given to [store.subscribe] by the effect. *)
Definition onStoreChange (store : value) (c : instance) : M instance :=
  let* state := invoke store "getState" [] in
  let* newState := call mstp [state] in
  let* w := get id in
  if negb (shallowEqual w newState (previousStateRef c)) then
    ret (Instance newState (S (forcedUpdates c)))
  else ret c.

(** One render of the wrapper: the props handed to the wrapped component,
    and the instance, created by the first render. *)
Definition Connect (store props : value) (mounted : option instance)
  : M (value * instance) :=
  let* state := invoke store "getState" [] in
  let* stateProps := call mstp [state] in
  let c := match mounted with
           | Some c => c
           | None => Instance stateProps 0
           end in
  let* d := read store "dispatch" in
  let* dispatchProps := call mdtp [d] in
  let* enhancedProps := enhance stateProps dispatchProps props in
  ret (enhancedProps, c).
End Connect.

(** Views of one state: [{count: 5, name: 'ada'}] at 0, the same
    properties in the other order at 1 and again at 2, [{count: 6, name:
    'ada'}] at 3, and own props [{count: 7, label: 'x'}] at 4. *)
Definition demo_views : gmap loc obj :=
  {[ 0 := [("count", VNum 5); ("name", VStr "ada")];
     1 := [("name", VStr "ada"); ("count", VNum 5)];
     2 := [("count", VNum 5); ("name", VStr "ada")];
     3 := [("count", VNum 6); ("name", VStr "ada")];
     4 := [("count", VNum 7); ("label", VStr "x")] ]}.

(** A store object as [createStore] returns it, at location 2 of the
    counter store, and a component that last rendered [{count: 0}], at
    location 3. *)
Definition demo_connected : world :=
  set_heap (<[2 := [("dispatch", VFun FDispatch);
                    ("subscribe", VFun FSubscribe);
                    ("getState", VFun FGetState)]]>
            (<[3 := [("count", VNum 0)]]> (heap (demo_store VUndef))))
    (demo_store VUndef).

(** The connected counter once [mapState] has returned [{count: 0}] at
    location 1001, and once [mapDispatch] has returned
    [{increment: dispatch}] at location 1002. *)
Definition demo_mapped : world :=
  set_log [Invoked mapState [VNum 0]; Returned mapState (VObj 1001)]
    (set_heap (<[1001 := [("count", VNum 0)]]> (heap demo_connected))
       demo_connected).

Definition demo_bound : world :=
  set_log (log demo_mapped
           ++ [Invoked mapDispatch [VFun FDispatch];
               Returned mapDispatch (VObj 1002)])
    (set_heap (<[1002 := [("increment", VFun FDispatch)]]> (heap demo_mapped))
       demo_mapped).

(** A store at state 1, its object at location 2, and a component whose
    retained props are the array [['v']] at location 1; [Array.prototype]
    is at location 999. *)
Definition demo_listing : world :=
  World counterReducer VUndef (VNum 1) [] []
        {[ 1 := [("0", VStr "v")];
           2 := [("dispatch", VFun FDispatch);
                 ("subscribe", VFun FSubscribe);
                 ("getState", VFun FGetState)];
           999 := [];
           realm := [] ]} []
        (<[1 := Shape (ProtoAt 999) [("length", VNum 1)]]>
           (<[999 := Shape (ProtoAt realm) [("length", VNum 0)]]>
              realm_shapes))
        realm.

(** A listener that returns and leaves the state alone, but may change
    who is subscribed. *)
Definition tidy (app : nat -> list value -> prog) (n : nat) (l : value)
  : Prop :=
  forall w, exists v w',
    call app n l [] w = Done v w' /\
    currentState w' = currentState w /\
    log w' = log w ++ [Invoked l []; Returned l v].

(** The counter store with the recruiter between the two listeners, and
    with the dismisser first, the reading listener being the one
    subscription handed out. *)
Definition demo_recruiting : world :=
  set_listeners [silentListener; recruiter; readingListener]
    (demo_store VUndef).

Definition demo_dismissing : world :=
  set_closures [UnSubscribe readingListener]
    (set_listeners [dismisser; readingListener] (demo_store VUndef)).

(** * Properties *)

(** Closed statements are settled by running the definitions, conjunct by
    conjunct. *)
Ltac by_computation :=
  repeat match goal with |- _ /\ _ => split end; vm_compute; reflexivity.

Lemma typeof_undefined_false v :
  (typeof v =? "undefined") = false <-> v <> VUndef.
Proof. destruct v; simpl; split; intros H; congruence. Qed.

Lemma set_log_heap_compose w h1 h2 lg1 lg2 :
  set_log (log (set_log (log w ++ lg1) (set_heap h1 w)) ++ lg2)
    (set_heap h2 (set_log (log w ++ lg1) (set_heap h1 w)))
  = set_log (log w ++ (lg1 ++ lg2)) (set_heap h2 w).
Proof.
  destruct w; simpl. unfold set_log, set_heap; simpl. by rewrite app_assoc.
Qed.

Lemma invocations_app lg1 lg2 :
  invocations (lg1 ++ lg2) = invocations lg1 ++ invocations lg2.
Proof. apply omap_app. Qed.

(** ** Reading properties *)

Lemma holder_own w l key v :
  obj_lookup key (obj_at (heap w) l) = Some v -> holder w l key = Some l.
Proof.
  intros H. unfold holder. cbn [holder_in]. unfold own_in. by rewrite H.
Qed.

Lemma get_prop_own w l key v :
  obj_lookup key (obj_at (heap w) l) = Some v ->
  get_prop w (VObj l) key = Found v.
Proof.
  intros H. unfold get_prop. rewrite (holder_own w l key v H).
  unfold is_proto_accessor. rewrite H.
  rewrite (bool_decide_eq_false_2 (Some v = None)) by done.
  rewrite andb_false_r. unfold own_prop, own_in. by rewrite H.
Qed.

(** Reading a property off an object always gives a value. *)
Lemma get_prop_object w l key :
  get_prop w (VObj l) key = Found (prop w (VObj l) key).
Proof.
  unfold prop, get_prop. destruct (holder w l key); [|done].
  by destruct (is_proto_accessor _ _ _).
Qed.

Lemma read_object w l key :
  read (VObj l) key w = Done (prop w (VObj l) key) w.
Proof. unfold read. by rewrite get_prop_object. Qed.

Lemma read_own w l key v :
  obj_lookup key (obj_at (heap w) l) = Some v ->
  read (VObj l) key w = Done v w.
Proof. intros H. unfold read. by rewrite (get_prop_own w l key v H). Qed.

(** An own enumerable property that is defined is what a read gives. *)
Lemma prop_own_defined w l key :
  obj_get (obj_at (heap w) l) key <> VUndef ->
  prop w (VObj l) key = obj_get (obj_at (heap w) l) key.
Proof.
  unfold obj_get. intros H.
  destruct (obj_lookup key (obj_at (heap w) l)) as [v|] eqn:E; [|done].
  unfold prop. by rewrite (get_prop_own w l key v E).
Qed.

Lemma own_type_defined w l key :
  obj_get (obj_at (heap w) l) key <> VUndef ->
  prop w (VObj l) key <> VUndef.
Proof. intros H. by rewrite prop_own_defined. Qed.

Lemma fresh_loc_unused w : fresh_loc w ∉ used w.
Proof. unfold fresh_loc, used. apply is_fresh. Qed.

Lemma unused_heap w l : l ∉ used w -> heap w !! l = None.
Proof. unfold used. intros H. apply not_elem_of_dom. set_solver. Qed.

Lemma unused_shapes w l : l ∉ used w -> shapes w !! l = None.
Proof. unfold used. intros H. apply not_elem_of_dom. set_solver. Qed.

Lemma unused_prototype w l : l ∉ used w -> l <> Object_prototype w.
Proof. unfold used. set_solver. Qed.

Lemma fresh_loc_heap w : heap w !! fresh_loc w = None.
Proof. apply unused_heap, fresh_loc_unused. Qed.

(** [dispatch] on an object whose [type] reads as defined: what is left
    is the reducer, the assignment and the notification. *)
Lemma dispatch_typed (c : value -> list value -> M value) w la :
  prop w (VObj la) "type" <> VUndef ->
  dispatch c (VObj la) w
  = (let* newState := c (rootReducer w) [currentState w; VObj la] in
     modify (set_currentState newState) ;;
     let* ls := get listeners in
     forEach ls (fun listener => c listener []) ;;
     ret (VObj la)) w.
Proof.
  intros Hty. apply typeof_undefined_false in Hty.
  unfold dispatch. unfold bind at 1, get at 1.
  rewrite andb_false_r.
  change (typeof (VObj la) =? "object") with true. cbn [negb].
  unfold bind at 1. rewrite read_object, Hty.
  reflexivity.
Qed.

Lemma dispatch_untyped (c : value -> list value -> M value) w la :
  prop w (VObj la) "type" = VUndef ->
  dispatch c (VObj la) w = Fail MissingActionType w.
Proof.
  intros Hty. unfold dispatch. unfold bind at 1, get at 1.
  rewrite andb_false_r.
  change (typeof (VObj la) =? "object") with true. cbn [negb].
  unfold bind at 1. by rewrite read_object, Hty.
Qed.

Lemma forEach_app {A} (xs ys : list A) (f : A -> M value) w :
  forEach (xs ++ ys) f w = (forEach xs f ;; forEach ys f) w.
Proof.
  revert w. induction xs as [|x xs IH]; intros w; [done|].
  simpl. unfold bind. destruct (f x w) as [v w1|e w1|]; [apply IH|done..].
Qed.

Section Notification.
Variable app : nat -> list value -> prog.

(** Notifying inert listeners calls each of them once, in list order, and
    leaves the store as it was. *)
Lemma forEach_inert n ls :
  Forall (fun l => inert app n l []) ls ->
  forall w, exists h' lg,
    heap w ⊆ h' /\
    forEach ls (fun listener => call app n listener []) w
      = Done tt (set_log (log w ++ lg) (set_heap h' w)) /\
    invocations lg = map (fun l => (l, [])) ls.
Proof.
  induction 1 as [|l ls Hl _ IH]; intros w.
  - exists (heap w), []. split; [done|]. split; [|done].
    simpl. unfold ret. destruct w; simpl.
    unfold set_log, set_heap; simpl. by rewrite app_nil_r.
  - destruct (Hl w) as (v & h1 & Hh1 & Hc).
    destruct (IH (set_log (log w ++ [Invoked l []; Returned l v])
                          (set_heap h1 w))) as (h2 & lg & Hh2 & Hf & Hi).
    exists h2, ([Invoked l []; Returned l v] ++ lg).
    split; [by etransitivity|]. split.
    + simpl. unfold bind at 1. rewrite Hc, Hf.
      by rewrite set_log_heap_compose.
    + rewrite invocations_app, Hi. done.
Qed.

(** The plain path of [dispatch] on an object action whose [type] reads as
    defined. *)
Lemma dispatch_read_type n w la s' w1 :
  prop w (VObj la) "type" <> VUndef ->
  call app n (rootReducer w) [currentState w; VObj la] w = Done s' w1 ->
  Forall (fun l => inert app n l []) (listeners w1) ->
  exists h' lg,
    heap w1 ⊆ h' /\
    forEach (listeners w1) (fun l => call app n l [])
      (set_currentState s' w1)
      = Done tt (set_log (log w1 ++ lg)
                   (set_heap h' (set_currentState s' w1))) /\
    dispatch (call app n) (VObj la) w
      = Done (VObj la)
          (set_log (log w1 ++ lg)
             (set_heap h' (set_currentState s' w1))) /\
    invocations lg = map (fun l => (l, [])) (listeners w1).
Proof.
  intros Hty Hred Hls.
  destruct (forEach_inert n _ Hls (set_currentState s' w1))
    as (h' & lg & Hh & Hf & Hi).
  exists h', lg. split; [done|]. split; [exact Hf|]. split; [|done].
  rewrite dispatch_typed by done.
  unfold bind at 1. rewrite Hred. unfold bind at 1, modify at 1.
  unfold bind at 1, get at 1. unfold bind at 1.
  change (listeners (set_currentState s' w1)) with (listeners w1).
  by rewrite Hf.
Qed.

(** The same on an action with a defined [type] of its own. *)
Lemma dispatch_plain n w la s' w1 :
  obj_get (obj_at (heap w) la) "type" <> VUndef ->
  call app n (rootReducer w) [currentState w; VObj la] w = Done s' w1 ->
  Forall (fun l => inert app n l []) (listeners w1) ->
  exists h' lg,
    heap w1 ⊆ h' /\
    dispatch (call app n) (VObj la) w
      = Done (VObj la)
          (set_log (log w1 ++ lg)
             (set_heap h' (set_currentState s' w1))) /\
    invocations lg = map (fun l => (l, [])) (listeners w1).
Proof.
  intros Hty Hred Hls.
  destruct (dispatch_read_type n w la s' w1
              (own_type_defined _ _ _ Hty) Hred Hls)
    as (h' & lg & Hh & _ & Hd & Hi).
  by exists h', lg.
Qed.
End Notification.

Section Dispatch.
Variable app : nat -> list value -> prog.

(** C1. A plain-object action with a defined [type]: the reducer is applied
    to the current state and the action; its result becomes the current
    state and only then are the listeners notified: the notification is
    the run of the registered listeners, in subscription order and with no
    arguments, from the world in which the state is already the new one,
    so that every listener is entered at a moment when [getState] returns
    the new state; the action itself is returned, and the objects that
    the reducer left, the action among them, are as it left them. *)
Theorem dispatch_plain_action n w la s' w1 :
  prop w (VObj la) "type" <> VUndef ->
  call app n (rootReducer w) [currentState w; VObj la] w = Done s' w1 ->
  Forall (fun l => inert app n l []) (listeners w1) ->
  exists w',
    dispatch (call app n) (VObj la) w = Done (VObj la) w' /\
    forEach (listeners w1) (fun l => call app n l [])
      (set_currentState s' w1) = Done tt w' /\
    (forall ls1 l ls2, listeners w1 = ls1 ++ l :: ls2 ->
       exists wl v wl',
         forEach ls1 (fun l => call app n l []) (set_currentState s' w1)
           = Done tt wl /\
         getState wl = Done s' wl /\
         call app n l [] wl = Done v wl' /\
         forEach ls2 (fun l => call app n l []) wl' = Done tt w') /\
    currentState w' = s' /\
    getState w' = Done s' w' /\
    listeners w' = listeners w1 /\
    heap w1 ⊆ heap w' /\
    shapes w' = shapes w1 /\
    invocations (log w')
      = invocations (log w1) ++ map (fun l => (l, [])) (listeners w1).
Proof.
  intros Hty Hred Hls.
  destruct (dispatch_read_type app n w la s' w1 Hty Hred Hls)
    as (h' & lg & Hh & Hf & Hd & Hi).
  eexists. split; [exact Hd|]. split; [exact Hf|]. split.
  - intros ls1 l ls2 Hsplit. rewrite Hsplit in Hls, Hf.
    apply Forall_app in Hls as [Hls1 Hls2].
    apply Forall_cons in Hls2 as [Hl _].
    destruct (forEach_inert app n ls1 Hls1 (set_currentState s' w1))
      as (h1 & lg1 & _ & Hf1 & _).
    set (wl := set_log (log (set_currentState s' w1) ++ lg1)
                 (set_heap h1 (set_currentState s' w1))) in *.
    destruct (Hl wl) as (v & h2 & _ & Hc).
    rewrite forEach_app in Hf. unfold bind at 1 in Hf. rewrite Hf1 in Hf.
    cbn [forEach] in Hf. unfold bind at 1 in Hf. rewrite Hc in Hf.
    by eexists wl, v, _.
  - split; [done|]. split; [done|]. split; [done|].
    split; [exact Hh|]. split; [done|].
    simpl. by rewrite invocations_app, Hi.
Qed.

Lemma dispatch_reads_type_off_null n w :
  dispatch (call app n) VNull w = Fail TypeError w.
Proof.
  unfold dispatch, bind, get, read, throw. simpl.
  by rewrite andb_false_r.
Qed.

(** C9. [null] passes the [typeof] test of [dispatch]; reading [type] off
    it is a [TypeError], raised before the reducer or any listener is
    reached, so the world is the one before the call. *)
Theorem dispatch_null n w :
  typeof VNull = "object" /\
  dispatch (call app n) VNull w = Fail TypeError w /\
  TypeError <> InvalidActionShape /\ TypeError <> MissingActionType.
Proof.
  split; [done|]. split; [|done].
  apply dispatch_reads_type_off_null.
Qed.

Lemma dispatch_function n w f :
  truthy (middleware w) = true ->
  dispatch (call app n) (VFun f) w
    = call app n (VFun f) [VFun FDispatch; VFun FGetState] w.
Proof.
  intros Hm. unfold dispatch, bind, get. simpl. by rewrite Hm.
Qed.

(** C5. With a middleware configured, dispatching a function is calling it
    with [(dispatch, getState)]: the outcome of [dispatch] is the outcome
    of that call, nothing else is run.  When the function does not itself
    use the store, the state is unchanged and the function is the only
    application code entered. *)
Theorem dispatch_function_action n w f :
  truthy (middleware w) = true ->
  dispatch (call app n) (VFun f) w
    = call app n (VFun f) [VFun FDispatch; VFun FGetState] w /\
  (inert app n (VFun f) [VFun FDispatch; VFun FGetState] ->
   exists v w',
     dispatch (call app n) (VFun f) w = Done v w' /\
     currentState w' = currentState w /\
     listeners w' = listeners w /\
     invocations (log w')
       = invocations (log w)
           ++ [(VFun f, [VFun FDispatch; VFun FGetState])]).
Proof.
  intros Hm. split; [by apply dispatch_function|].
  intros Hin. destruct (Hin w) as (v & h' & _ & Hc).
  exists v. eexists. rewrite dispatch_function by done.
  split; [exact Hc|]. repeat split; simpl.
  by rewrite invocations_app.
Qed.

Lemma dispatch_not_object n w a :
  plain_path w a = true -> typeof a <> "object" ->
  dispatch (call app n) a w = Fail InvalidActionShape w.
Proof.
  unfold plain_path. intros Hp Ht.
  apply negb_true_iff in Hp.
  unfold dispatch, bind, get, throw. simpl. rewrite Hp.
  destruct a; simpl in *; congruence.
Qed.

(** C2 (amended). On the plain path, with a reducer and listeners that
    return whenever the action is well formed, [dispatch] raises
    [InvalidActionShape] exactly when [typeof action] is not ["object"]
    and [MissingActionType] exactly when the action is an object on which
    [type], its own or inherited, reads as undefined; a failed dispatch
    leaves the world unchanged. *)
Theorem dispatch_shape_errors n w a :
  plain_path w a = true ->
  (forall l, a = VObj l ->
     prop w a "type" <> VUndef ->
     exists s' w1,
       call app n (rootReducer w) [currentState w; a] w = Done s' w1 /\
       Forall (fun l => inert app n l []) (listeners w1)) ->
  ((exists w', dispatch (call app n) a w = Fail InvalidActionShape w')
     <-> typeof a <> "object") /\
  ((exists w', dispatch (call app n) a w = Fail MissingActionType w')
     <-> exists l, a = VObj l /\ get_prop w a "type" = Found VUndef) /\
  (forall e w', dispatch (call app n) a w = Fail e w' -> w' = w).
Proof.
  intros Hp Hwell.
  destruct (decide (typeof a = "object")) as [Hobj|Hobj].
  - destruct a; simpl in Hobj; try discriminate.
    + (* null *)
      rewrite (dispatch_reads_type_off_null n w).
      split; [|split].
      * split; [intros [w' H]; discriminate | simpl; done].
      * split; [intros [w' H]; discriminate
               | intros (l & H & _); discriminate].
      * intros e w' H. congruence.
    + destruct (decide (prop w (VObj l) "type" = VUndef)) as [Hu|Hu].
      * rewrite (dispatch_untyped _ w l Hu).
        split; [|split].
        -- split; [intros [w' H]; discriminate | simpl; done].
        -- split; [|intros _; by exists w].
           intros _. exists l. split; [done|].
           by rewrite get_prop_object, Hu.
        -- intros e w' H. congruence.
      * destruct (Hwell l eq_refl Hu) as (s' & w1 & Hred & Hls).
        destruct (dispatch_read_type app n w l s' w1 Hu Hred Hls)
          as (h' & lg & _ & _ & Hd & _).
        rewrite Hd. split; [|split].
        -- split; [intros [w' H]; discriminate | simpl; done].
        -- split; [intros [w' H]; discriminate |].
           intros (l' & [= <-] & Hu').
           rewrite get_prop_object in Hu'. congruence.
        -- intros e w' H. discriminate.
  - rewrite (dispatch_not_object n w a Hp Hobj).
    split; [|split].
    + split; [done | intros _; by exists w].
    + split; [intros [w' H]; discriminate |].
      intros (l & -> & _). by destruct Hobj.
    + intros e w' H. congruence.
Qed.
End Dispatch.

Section Subscription.
Variable app : nat -> list value -> prog.

Lemma entered_notified f ls lg :
  invocations lg = map (fun l => (l, [])) ls ->
  entered f lg = occurrences f ls.
Proof.
  unfold entered, occurrences. intros ->.
  induction ls as [|x ls IH]; [done|].
  simpl. rewrite !filter_cons. simpl.
  destruct (decide (x = f)); simpl; by rewrite IH.
Qed.

Lemma occurrences_app f ls1 ls2 :
  occurrences f (ls1 ++ ls2) = occurrences f ls1 + occurrences f ls2.
Proof. unfold occurrences. by rewrite filter_app, length_app. Qed.

Lemma occurrences_absent f ls : f ∉ ls -> occurrences f ls = 0.
Proof.
  unfold occurrences. induction ls as [|x ls IH]; intros Hn; [done|].
  apply not_elem_of_cons in Hn as [Hx Hn].
  rewrite filter_cons. destruct (decide (x = f)); [congruence|]. auto.
Qed.

Lemma occurrences_removed f ls :
  occurrences f (filter (fun item => item <> f) ls) = 0.
Proof.
  apply occurrences_absent. intros H.
  apply list_elem_of_filter in H as [H _]. by apply H.
Qed.

Lemma subscribe_eq l w :
  subscribe l w
    = Done (VFun (FClosure (length (closures w))))
        (set_closures (closures w ++ [UnSubscribe l])
           (set_listeners (listeners w ++ [l]) w)).
Proof. done. Qed.

Lemma call_unSubscribe n id l w :
  closures w !! id = Some (UnSubscribe l) ->
  call app (S n) (VFun (FClosure id)) [] w
    = Done VUndef
        (set_listeners (filter (fun item => item <> l) (listeners w)) w).
Proof.
  intros Hc. simpl. unfold bind, get. by rewrite Hc.
Qed.

Lemma filter_ne_idemp (l : value) (ls : list value) :
  filter (fun item => item <> l) (filter (fun item => item <> l) ls)
  = filter (fun item => item <> l) ls.
Proof.
  induction ls as [|x ls IH]; [done|].
  rewrite filter_cons. destruct (decide (x <> l)) as [Hx|Hx]; [|done].
  rewrite filter_cons. destruct (decide (x <> l)); [|done].
  by rewrite IH.
Qed.
End Subscription.

Section Listeners.
Variable app : nat -> list value -> prog.

(** What one plain dispatch enters after the reducer has returned: the
    listeners, as listed, each as often as it is listed. *)
Lemma dispatch_enters n w la s' w1 :
  obj_get (obj_at (heap w) la) "type" <> VUndef ->
  call app n (rootReducer w) [currentState w; VObj la] w = Done s' w1 ->
  listeners w1 = listeners w ->
  Forall (fun l => inert app n l []) (listeners w) ->
  exists w' lg,
    dispatch (call app n) (VObj la) w = Done (VObj la) w' /\
    log w' = log w1 ++ lg /\
    listeners w' = listeners w /\
    invocations lg = map (fun x => (x, [])) (listeners w) /\
    forall f, entered f lg = occurrences f (listeners w).
Proof.
  intros Hty Hred Hsame Hls. rewrite <- Hsame in Hls.
  destruct (dispatch_plain app n w la s' w1 Hty Hred Hls)
    as (h' & lg & _ & Hd & Hi).
  rewrite Hsame in Hi.
  eexists _, lg. split; [exact Hd|]. simpl.
  repeat split; try done.
  intros f. by apply entered_notified.
Qed.

(** C6 (amended). [subscribe] appends the listener and returns a function
    that filters it out of the list, a second call of which changes
    nothing.  A plain dispatch after subscribing enters the listeners in
    subscription order, the new one last: once for this subscription, on
    top of the times it was listed before, so exactly once when it was not.
    A plain dispatch after unsubscribing does not enter it. *)
Theorem subscribe_unsubscribe n w l :
  exists id w1,
    subscribe l w = Done (VFun (FClosure id)) w1 /\
    listeners w1 = listeners w ++ [l] /\
    closures w1 !! id = Some (UnSubscribe l) /\
    currentState w1 = currentState w /\
    (forall la s' w2,
       obj_get (obj_at (heap w1) la) "type" <> VUndef ->
       call app n (rootReducer w1) [currentState w1; VObj la] w1
         = Done s' w2 ->
       listeners w2 = listeners w1 ->
       Forall (fun x => inert app n x []) (listeners w1) ->
       exists w3 lg,
         dispatch (call app n) (VObj la) w1 = Done (VObj la) w3 /\
         log w3 = log w2 ++ lg /\
         invocations lg = map (fun x => (x, [])) (listeners w ++ [l]) /\
         entered l lg = S (occurrences l (listeners w)) /\
         (l ∉ listeners w -> entered l lg = 1)) /\
    (forall w2,
       closures w2 !! id = Some (UnSubscribe l) ->
       exists w3,
         call app (S n) (VFun (FClosure id)) [] w2 = Done VUndef w3 /\
         listeners w3 = filter (fun item => item <> l) (listeners w2) /\
         (l ∉ listeners w3) /\
         call app (S n) (VFun (FClosure id)) [] w3 = Done VUndef w3 /\
         (forall la s' w4,
            obj_get (obj_at (heap w3) la) "type" <> VUndef ->
            call app n (rootReducer w3) [currentState w3; VObj la] w3
              = Done s' w4 ->
            listeners w4 = listeners w3 ->
            Forall (fun x => inert app n x []) (listeners w3) ->
            exists w5 lg,
              dispatch (call app n) (VObj la) w3 = Done (VObj la) w5 /\
              log w5 = log w4 ++ lg /\
              invocations lg = map (fun x => (x, [])) (listeners w3) /\
              entered l lg = 0)).
Proof.
  exists (length (closures w)).
  set (w1 := set_closures (closures w ++ [UnSubscribe l])
               (set_listeners (listeners w ++ [l]) w)).
  exists w1. split; [apply subscribe_eq|].
  split; [done|]. split; [by apply list_lookup_middle|]. split; [done|].
  split.
  - intros la s' w2 Hty Hred Hsame Hls.
    destruct (dispatch_enters n w1 la s' w2 Hty Hred Hsame Hls)
      as (w3 & lg & Hd & Hlog & _ & Hi & He).
    exists w3, lg. change (listeners w1) with (listeners w ++ [l]) in *.
    repeat split; try done.
    + rewrite He, occurrences_app. unfold occurrences at 2.
      rewrite filter_cons, decide_True by done. simpl. lia.
    + intros Hn. rewrite He, occurrences_app, occurrences_absent by done.
      unfold occurrences. by rewrite filter_cons, decide_True by done.
  - intros w2 Hc.
    set (w3 := set_listeners
                 (filter (fun item => item <> l) (listeners w2)) w2).
    exists w3. split; [by apply call_unSubscribe|].
    split; [done|]. split.
    { intros H. apply list_elem_of_filter in H as [H _]. by apply H. }
    split.
    { rewrite (call_unSubscribe app n _ l w3) by done. unfold w3 at 1 3. simpl.
      rewrite filter_ne_idemp. done. }
    intros la s' w4 Hty Hred Hsame Hls.
    destruct (dispatch_enters n w3 la s' w4 Hty Hred Hsame Hls)
      as (w5 & lg & Hd & Hlog & _ & Hi & He).
    exists w5, lg. repeat split; try done.
    rewrite He. apply occurrences_removed.
Qed.

(** C7 (amended). [subscribe] always appends: a listener already in the
    list is then listed once more, and one plain dispatch enters every
    listener as often as it is listed. *)
Theorem subscribe_keeps_duplicates n w f :
  exists u w1,
    subscribe f w = Done u w1 /\
    listeners w1 = listeners w ++ [f] /\
    occurrences f (listeners w1) = S (occurrences f (listeners w)) /\
    (forall la s' w2,
       obj_get (obj_at (heap w1) la) "type" <> VUndef ->
       call app n (rootReducer w1) [currentState w1; VObj la] w1
         = Done s' w2 ->
       listeners w2 = listeners w1 ->
       Forall (fun x => inert app n x []) (listeners w1) ->
       exists w3 lg,
         dispatch (call app n) (VObj la) w1 = Done (VObj la) w3 /\
         log w3 = log w2 ++ lg /\
         forall g, entered g lg = occurrences g (listeners w1)).
Proof.
  set (w1 := set_closures (closures w ++ [UnSubscribe f])
               (set_listeners (listeners w ++ [f]) w)).
  exists (VFun (FClosure (length (closures w)))), w1.
  split; [apply subscribe_eq|].
  split; [done|]. split.
  { change (listeners w1) with (listeners w ++ [f]).
    rewrite occurrences_app. unfold occurrences at 2.
    rewrite filter_cons, decide_True by done. simpl. lia. }
  intros la s' w2 Hty Hred Hsame Hls.
  destruct (dispatch_enters n w1 la s' w2 Hty Hred Hsame Hls)
    as (w3 & lg & Hd & Hlog & _ & Hi & He).
  by exists w3, lg.
Qed.
End Listeners.

(** ** Objects *)

Lemma obj_lookup_is_Some key o :
  is_Some (obj_lookup key o) <-> key ∈ obj_keys o.
Proof.
  unfold obj_keys. induction o as [|[k v] o IH]; simpl.
  - split; [intros [? ?]; discriminate | intros H; by apply elem_of_nil in H].
  - destruct (String.eqb_spec k key) as [->|Hne].
    + split; [intros _; apply list_elem_of_here | by eexists].
    + rewrite IH. split; [apply list_elem_of_further|].
      intros H. apply elem_of_cons in H as [H|H]; [congruence | done].
Qed.

Lemma obj_lookup_None key o : obj_lookup key o = None <-> key ∉ obj_keys o.
Proof.
  rewrite <- obj_lookup_is_Some, eq_None_not_Some. done.
Qed.

(** ** [shallowEqual] *)

Lemma holder_own_prop w l key :
  is_Some (own_prop w l key) -> holder w l key = Some l.
Proof.
  intros [v H]. unfold holder. cbn [holder_in].
  unfold own_prop in H. by rewrite H.
Qed.

(** What a read gives for a property the object has itself. *)
Lemma prop_own_prop w l key :
  is_Some (own_prop w l key) ->
  prop w (VObj l) key
  = if is_proto_accessor w l key then getPrototypeOf w l
    else default VUndef (own_prop w l key).
Proof.
  intros H. unfold prop, get_prop. rewrite (holder_own_prop w l key H).
  by destruct (is_proto_accessor w l key).
Qed.

Lemma prop_enumerable w l key :
  key ∈ Object_keys w (VObj l) ->
  prop w (VObj l) key = obj_get (obj_at (heap w) l) key.
Proof.
  intros Hin. apply obj_lookup_is_Some in Hin as [v Hv].
  unfold prop, obj_get. by rewrite (get_prop_own w l key v Hv), Hv.
Qed.

Lemma shallowEqual_objects w la lb :
  la <> lb ->
  shallowEqual w (VObj la) (VObj lb)
  = (length (Object_keys w (VObj la))
       =? length (Object_keys w (VObj lb)))%nat
    && forallb (fun key =>
         has_own w (VObj lb) key
         && Object_is (prop w (VObj la) key) (prop w (VObj lb) key))
         (Object_keys w (VObj la)).
Proof.
  intros Hne. unfold shallowEqual, Object_is.
  rewrite (bool_decide_eq_false_2 (VObj la = VObj lb)) by congruence.
  change (typeof (VObj la) =? "object") with true.
  change (typeof (VObj lb) =? "object") with true.
  rewrite (bool_decide_eq_false_2 (VObj la = VNull)) by done.
  rewrite (bool_decide_eq_false_2 (VObj lb = VNull)) by done.
  cbn [negb orb]. destruct (_ =? _)%nat; cbn [negb andb]; [|done].
  induction (Object_keys w (VObj la)) as [|key keys IH]; [done|].
  cbn [forallb]. by rewrite IH, negb_orb, !negb_involutive.
Qed.

Lemma forallb_agree {A} (f g : A -> bool) (xs : list A) :
  (forall x, x ∈ xs -> f x = g x) -> forallb f xs = forallb g xs.
Proof.
  induction xs as [|x xs IH]; intros H; [done|]. cbn [forallb].
  rewrite (H x) by apply list_elem_of_here.
  rewrite IH; [done|]. intros y Hy. by apply H, list_elem_of_further.
Qed.

Lemma shallowEqual_same w a : shallowEqual w a a = true.
Proof. unfold shallowEqual, Object_is. by rewrite bool_decide_eq_true_2. Qed.

Lemma shallowEqual_primitive w a b :
  (forall l, a <> VObj l) \/ (forall l, b <> VObj l) ->
  shallowEqual w a b = bool_decide (a = b).
Proof.
  intros H. unfold shallowEqual, Object_is.
  destruct (decide (a = b)) as [->|Hne].
  - by rewrite bool_decide_eq_true_2.
  - rewrite bool_decide_eq_false_2 by done.
    destruct H as [H|H].
    + destruct a as [| | | | |la|]; try done. by destruct (H la).
    + destruct a as [| | | | |la|]; try done.
      destruct b as [| | | | |lb|]; try done. by destruct (H lb).
Qed.

(** The test made on two different objects, as a statement. *)
Lemma shallowEqual_objects_true w la lb :
  la <> lb ->
  shallowEqual w (VObj la) (VObj lb) = true <->
  length (Object_keys w (VObj la)) = length (Object_keys w (VObj lb)) /\
  forall key, key ∈ Object_keys w (VObj la) ->
    is_Some (own_prop w lb key) /\
    prop w (VObj la) key = prop w (VObj lb) key.
Proof.
  intros Hne. rewrite shallowEqual_objects by done.
  rewrite andb_true_iff, Nat.eqb_eq, forallb_forall.
  split; intros [Hlen Hall]; (split; [done|]).
  - intros key Hin. apply list_elem_of_In, Hall, andb_true_iff in Hin.
    destruct Hin as [Hown Hval]. split.
    + by apply bool_decide_eq_true in Hown.
    + by apply bool_decide_eq_true in Hval.
  - intros key Hin. apply list_elem_of_In, Hall in Hin as [Hown Hval].
    apply andb_true_iff. split; by apply bool_decide_eq_true.
Qed.

(** C8. [shallowEqual] answers true exactly for identical values and for two
    objects, those values whose [typeof] is ["object"] and that are not
    [null], with as many own enumerable keys as each other, every such key
    of the first being an own key of the second, enumerable or not, with
    an identical value.  It reads nothing but the two objects themselves,
    so a change below the top level that keeps the top-level values
    identical is not seen.  A function is not an object for this test: it
    equals itself only. *)
Theorem shallowEqual_spec w a b :
  (shallowEqual w a b = true <->
     a = b \/
     exists la lb,
       a = VObj la /\ b = VObj lb /\
       length (Object_keys w a) = length (Object_keys w b) /\
       forall key, key ∈ Object_keys w a ->
         is_Some (own_prop w lb key) /\ prop w a key = prop w b key) /\
  (forall w',
     Object_prototype w' = Object_prototype w ->
     (forall l, a = VObj l \/ b = VObj l ->
        heap w' !! l = heap w !! l /\ shape_at w' l = shape_at w l) ->
     shallowEqual w' a b = shallowEqual w a b) /\
  (forall f, a = VFun f \/ b = VFun f ->
     shallowEqual w a b = bool_decide (a = b)).
Proof.
  split; [|split]; cycle 2.
  { intros f [-> | ->]; apply shallowEqual_primitive;
      [left | right]; by intros. }
  - destruct (decide (a = b)) as [->|Hne].
    { rewrite shallowEqual_same. split; [by left | done]. }
    destruct a as [| | | | |la|];
      try (rewrite shallowEqual_primitive by (left; by intros);
           rewrite bool_decide_eq_false_2 by done;
           split; [discriminate | by intros [?|(? & ? & ? & _)]]).
    destruct b as [| | | | |lb|];
      try (rewrite shallowEqual_primitive by (right; by intros);
           rewrite bool_decide_eq_false_2 by done;
           split; [discriminate | by intros [?|(? & ? & ? & ? & _)]]).
    rewrite shallowEqual_objects_true by congruence. split.
    + intros [Hlen Hall]. right. by exists la, lb.
    + intros [?|(la' & lb' & [= <-] & [= <-] & Hlen & Hall)]; done.
  - intros w' Hop Hsame.
    destruct (decide (a = b)) as [->|Hne].
    { by rewrite !shallowEqual_same. }
    destruct a as [| | | | |la|];
      try (rewrite !shallowEqual_primitive by (left; by intros); done).
    destruct b as [| | | | |lb|];
      try (rewrite !shallowEqual_primitive by (right; by intros); done).
    destruct (Hsame la (or_introl eq_refl)) as [Hha Hsa].
    destruct (Hsame lb (or_intror eq_refl)) as [Hhb Hsb].
    assert (forall l, heap w' !! l = heap w !! l ->
            shape_at w' l = shape_at w l ->
            forall key, own_prop w' l key = own_prop w l key) as Hown.
    { intros l Hh Hs key. unfold own_prop, own_in, obj_at.
      unfold shape_at in Hs. by rewrite Hh, Hs. }
    assert (forall l, heap w' !! l = heap w !! l ->
            shape_at w' l = shape_at w l ->
            forall key, is_Some (own_prop w l key) ->
              prop w' (VObj l) key = prop w (VObj l) key) as Hprop.
    { intros l Hh Hs key Hk.
      rewrite !prop_own_prop by (by rewrite ?Hown).
      unfold is_proto_accessor, getPrototypeOf, obj_at.
      by rewrite Hop, Hh, Hs, Hown. }
    assert (Object_keys w' (VObj la) = Object_keys w (VObj la)) as Hka
      by (unfold Object_keys, obj_at; by rewrite Hha).
    assert (Object_keys w' (VObj lb) = Object_keys w (VObj lb)) as Hkb
      by (unfold Object_keys, obj_at; by rewrite Hhb).
    rewrite !shallowEqual_objects by congruence. rewrite Hka, Hkb.
    f_equal. apply forallb_agree. intros key Hin.
    assert (is_Some (own_prop w la key)) as Hoa.
    { apply obj_lookup_is_Some in Hin as [v Hv].
      exists v. unfold own_prop, own_in. by rewrite Hv. }
    unfold has_own. rewrite (Hown lb Hhb Hsb key).
    destruct (decide (is_Some (own_prop w lb key))) as [Hob|Hob].
    + by rewrite (Hprop la Hha Hsa key Hoa), (Hprop lb Hhb Hsb key Hob).
    + by rewrite (bool_decide_eq_false_2 _ Hob).
Qed.

Lemma ordered_app_l xs ys : ordered (xs ++ ys) = true -> ordered xs = true.
Proof.
  induction xs as [|x xs IH]; [done|]. simpl.
  rewrite forallb_app, !andb_true_iff. intros [[H1 _] H2]. auto.
Qed.

Lemma ordered_last xs k :
  ordered (xs ++ [k]) = true -> forallb (fun x => precedes x k) xs = true.
Proof.
  induction xs as [|x xs IH]; [done|]. simpl.
  rewrite forallb_app, !andb_true_iff. simpl. rewrite andb_true_r.
  intros [[_ Hx] H]. auto.
Qed.

Lemma obj_insert_last n key v o :
  index_of key = Some n ->
  forallb (fun k => precedes k key) (obj_keys o) = true ->
  obj_insert n key v o = o ++ [(key, v)].
Proof.
  intros Hkey. unfold obj_keys.
  induction o as [|[k x] o IH]; [done|]. simpl.
  rewrite andb_true_iff. unfold precedes at 1. rewrite Hkey.
  intros [Hk Ho]. destruct (index_of k) as [m|]; [|done].
  rewrite Hk. by rewrite IH.
Qed.

(** A new property whose name comes last in the order of keys is put at
    the end. *)
Lemma obj_set_fresh key v o :
  key ∉ obj_keys o -> ordered (obj_keys o ++ [key]) = true ->
  obj_set key v o = o ++ [(key, v)].
Proof.
  intros Hn Hord. unfold obj_set.
  destruct (obj_lookup key o) eqn:E.
  { destruct Hn. apply obj_lookup_is_Some. by eexists. }
  destruct (index_of key) as [n|] eqn:Hkey; [|done].
  apply obj_insert_last; [done|]. by apply ordered_last.
Qed.

Lemma obj_lookup_NoDup key v o :
  NoDup (obj_keys o) -> (key, v) ∈ o -> obj_lookup key o = Some v.
Proof.
  unfold obj_keys. induction o as [|[k x] o IH]; simpl; intros Hnd Hin.
  - by apply elem_of_nil in Hin.
  - apply NoDup_cons in Hnd as [Hk Hnd].
    apply elem_of_cons in Hin as [[= <- <-]|Hin].
    + by rewrite String.eqb_refl.
    + destruct (String.eqb_spec k key) as [->|Hne]; [|by apply IH].
      destruct Hk. apply list_elem_of_fmap. by exists (key, v).
Qed.

Lemma bind_Done {A B} (m : M A) (k : A -> M B) w v w' :
  m w = Done v w' -> bind m k w = k v w'.
Proof. unfold bind. by intros ->. Qed.

Section Middleware.
Variables m1 m2 : value.
Hypothesis Htruthy : truthy m1 = truthy m2.

Local Abbreviation ok := (indifferent m1 m2).

Lemma ok_ret {A} (v : A) : ok (ret v).
Proof. by intros w Hw. Qed.

Lemma ok_throw {A} e : ok (@throw A e).
Proof. by intros w Hw. Qed.

Lemma ok_bind {A B} (c : M A) (k : A -> M B) :
  ok c -> (forall x, ok (k x)) -> ok (bind c k).
Proof.
  intros Hc Hk w Hw. destruct (Hc w Hw) as [Heq Hmw].
  unfold bind. rewrite Heq. destruct (c w) as [v w'|e w'|]; simpl; try done.
  by apply Hk.
Qed.

Lemma ok_get {A} (f : world -> A) :
  (forall w, f (set_middleware m2 w) = f w) -> ok (get f).
Proof. intros Hf w Hw. unfold get. simpl. by rewrite Hf. Qed.

Lemma ok_modify (f : world -> world) :
  (forall w, f (set_middleware m2 w) = set_middleware m2 (f w)) ->
  (forall w, middleware (f w) = middleware w) ->
  ok (modify f).
Proof.
  intros Hf Hm w Hw. unfold modify. simpl. by rewrite Hf, Hm.
Qed.

Lemma ok_read v key : ok (read v key).
Proof.
  intros w Hw. unfold read.
  change (get_prop (set_middleware m2 w) v key) with (get_prop w v key).
  by destruct (get_prop w v key).
Qed.

Lemma assign_set_middleware l key v w :
  assign l key v (set_middleware m2 w)
  = set_middleware m2 <$> assign l key v w.
Proof.
  unfold assign.
  change (holder (set_middleware m2 w) l key) with (holder w l key).
  change (shape_at (set_middleware m2 w) l) with (shape_at w l).
  change (heap (set_middleware m2 w)) with (heap w).
  change (shapes (set_middleware m2 w)) with (shapes w).
  destruct (bool_decide _ && bool_decide _);
    (destruct (holder w l key) as [h|]; [|done]);
    change (is_proto_accessor (set_middleware m2 w) h key)
      with (is_proto_accessor w h key);
    (destruct (is_proto_accessor w h key); [|done]);
    by destruct v.
Qed.

Lemma assign_middleware l key v w w' :
  assign l key v w = Some w' -> middleware w' = middleware w.
Proof.
  unfold assign.
  destruct (bool_decide _ && bool_decide _);
    (destruct (holder w l key) as [h|]; [|by intros [= <-]]);
    (destruct (is_proto_accessor w h key); [|by intros [= <-]]);
    destruct v; by intros [= <-].
Qed.

Lemma ok_write l key v : ok (write l key v).
Proof.
  intros w Hw. unfold write. rewrite assign_set_middleware.
  destruct (assign l key v w) as [w'|] eqn:E; simpl; [|done].
  split; [done|]. rewrite <- Hw. by eapply assign_middleware.
Qed.

Lemma ok_new_object fields : ok (new_object fields).
Proof. by intros w Hw. Qed.

Lemma ok_new_closure c : ok (new_closure c).
Proof.
  apply ok_bind; [by apply ok_get|]. intros id.
  apply ok_bind; [by apply ok_modify|]. intros _. apply ok_ret.
Qed.

Lemma ok_forEach {A} (xs : list A) (f : A -> M value) :
  (forall x, ok (f x)) -> ok (forEach xs f).
Proof.
  intros Hf. induction xs as [|x xs IH]; simpl; [apply ok_ret|].
  apply ok_bind; [apply Hf | by intros _].
Qed.

Section Callee.
Variable c : value -> list value -> M value.
Hypothesis Hc : forall f args, ok (c f args).

Lemma ok_exec p : ok (exec c p).
Proof.
  induction p as [v|v|fields k IH|o key k IH|f args k IH]; simpl.
  - apply ok_ret.
  - apply ok_throw.
  - apply ok_bind; [apply ok_new_object | done].
  - apply ok_bind; [apply ok_read | done].
  - apply ok_bind; [apply Hc | done].
Qed.

Lemma ok_mainReducer reducers state action :
  ok (mainReducer c reducers state action).
Proof.
  unfold mainReducer.
  apply ok_bind; [by apply ok_get|]. intros newStore.
  apply ok_bind; [by apply ok_modify|]. intros _.
  apply ok_bind; [by apply ok_get|]. intros keys.
  apply ok_bind; [|intros _; apply ok_ret].
  apply ok_forEach. intros item.
  apply ok_bind; [apply ok_read|]. intros r.
  apply ok_bind; [apply ok_read|]. intros s.
  apply ok_bind; [apply Hc|]. intros v. apply ok_write.
Qed.

Lemma ok_unSubscribe listener : ok (unSubscribe listener).
Proof.
  apply ok_bind; [by apply ok_modify | intros _; apply ok_ret].
Qed.

Lemma ok_subscribe listener : ok (subscribe listener).
Proof.
  apply ok_bind; [by apply ok_modify | intros _; apply ok_new_closure].
Qed.

Lemma ok_dispatch action : ok (dispatch c action).
Proof.
  set (body := fun mw : value =>
    if truthy mw && (typeof action =? "function") then
      c action [VFun FDispatch; VFun FGetState]
    else if negb (typeof action =? "object") then
      throw InvalidActionShape
    else
      let* type := read action "type" in
      if typeof type =? "undefined" then
        throw MissingActionType
      else
        let* reducer := get rootReducer in
        let* state := get currentState in
        let* newState := c reducer [state; action] in
        modify (set_currentState newState) ;;
        let* ls := get listeners in
        forEach ls (fun listener => c listener []) ;;
        ret action).
  assert (forall w, dispatch c action w = body (middleware w) w) as Hd
    by done.
  assert (body m2 = body m1) as Hb by (unfold body; by rewrite Htruthy).
  assert (ok (body m1)) as Hok.
  { unfold body.
    destruct (truthy m1 && (typeof action =? "function")); [apply Hc|].
    destruct (negb (typeof action =? "object")); [apply ok_throw|].
    apply ok_bind; [apply ok_read|]. intros type.
    destruct (typeof type =? "undefined"); [apply ok_throw|].
    apply ok_bind; [by apply ok_get|]. intros reducer.
    apply ok_bind; [by apply ok_get|]. intros state.
    apply ok_bind; [apply Hc|]. intros newState.
    apply ok_bind; [by apply ok_modify|]. intros _.
    apply ok_bind; [by apply ok_get|]. intros ls.
    apply ok_bind; [|intros _; apply ok_ret].
    apply ok_forEach. intros l. apply Hc. }
  intros w Hw. rewrite !Hd. simpl. rewrite Hw, Hb. by apply Hok.
Qed.
End Callee.

Variable app : nat -> list value -> prog.

Lemma ok_call n : forall f args, ok (call app n f args).
Proof.
  induction n as [|n IH]; intros f args; [by intros w Hw|].
  destruct f as [| | | | | |[| | |id|id]]; simpl; try apply ok_throw.
  - by apply ok_dispatch.
  - by apply ok_get.
  - apply ok_subscribe.
  - apply ok_bind; [by apply ok_get|]. intros [[l|r]|].
    + apply ok_unSubscribe.
    + by apply ok_mainReducer.
    + apply ok_throw.
  - apply ok_bind; [by apply ok_modify|]. intros _.
    apply ok_bind; [by apply ok_exec|]. intros v.
    apply ok_bind; [by apply ok_modify|]. intros _. apply ok_ret.
Qed.
End Middleware.

Section Construction.
Variable app : nat -> list value -> prog.

(** C10. The middleware value is only tested for truthiness.  A store
    built with one truthy middleware and a store built with another go
    through the same outcomes, value for value and world for world apart
    from the configured middleware itself: at construction, under every
    call of a function of the store or of the application, and under
    every program run against the store. *)
Theorem middleware_only_truthiness n reducer init m1 m2 :
  truthy m1 = true -> truthy m2 = true ->
  (forall w0,
     createStore app n reducer init m2 w0
       = with_middleware m2 (createStore app n reducer init m1 w0) /\
     forall v w, createStore app n reducer init m1 w0 = Done v w ->
       middleware w = m1) /\
  (forall w f args, middleware w = m1 ->
     call app n f args (set_middleware m2 w)
       = with_middleware m2 (call app n f args w) /\
     forall v w', call app n f args w = Done v w' -> middleware w' = m1) /\
  (forall w p, middleware w = m1 ->
     exec (call app n) p (set_middleware m2 w)
       = with_middleware m2 (exec (call app n) p w) /\
     forall v w', exec (call app n) p w = Done v w' -> middleware w' = m1).
Proof.
  intros H1 H2.
  assert (truthy m1 = truthy m2) as Ht by congruence.
  split; [|split].
  - intros w0.
    assert (indifferent m1 m2
      (let* action := new_object [("type", VStr "@INIT")] in
       dispatch (call app n) action ;;
       new_object [("dispatch", VFun FDispatch);
                   ("subscribe", VFun FSubscribe);
                   ("getState", VFun FGetState)])) as Hok.
    { apply ok_bind; [apply ok_new_object|]. intros action.
      apply ok_bind; [|intros _; apply ok_new_object].
      apply ok_dispatch; [done|]. by apply ok_call. }
    destruct (Hok (World reducer m1 init [] (closures w0) (heap w0)
                         (log w0) (shapes w0) (Object_prototype w0))
                eq_refl) as [Heq Hmw].
    split; [exact Heq|].
    intros v w Hcs. unfold createStore in Hcs. by rewrite Hcs in Hmw.
  - intros w f args Hw.
    destruct (ok_call m1 m2 Ht app n f args w Hw) as [Heq Hmw].
    split; [exact Heq|]. intros v w' Hc. by rewrite Hc in Hmw.
  - intros w p Hw.
    destruct (ok_exec m1 m2 (call app n) (ok_call m1 m2 Ht app n) p w Hw)
      as [Heq Hmw].
    split; [exact Heq|]. intros v w' Hc. by rewrite Hc in Hmw.
Qed.

Lemma dispatch_no_listeners n w la s' w1 :
  obj_get (obj_at (heap w) la) "type" <> VUndef ->
  call app n (rootReducer w) [currentState w; VObj la] w = Done s' w1 ->
  listeners w1 = [] ->
  dispatch (call app n) (VObj la) w
    = Done (VObj la) (set_currentState s' w1).
Proof.
  intros Hty Hred Hls.
  rewrite dispatch_typed by (by apply own_type_defined).
  unfold bind at 1. rewrite Hred. unfold bind at 1, modify at 1.
  unfold bind at 1, get at 1. unfold bind at 1.
  change (listeners (set_currentState s' w1)) with (listeners w1).
  by rewrite Hls.
Qed.

(** C4. Construction dispatches one action, a new object [{type:
    '@INIT'}], on the plain path, then returns the object holding the
    three functions of the store; the state is then what the reducer
    returned for the initial state and that action, and nothing but that
    reducer call has been logged. *)
Theorem createStore_init n reducer init mw w0 s' w1 :
  let la := fresh_loc w0 in
  let w := World reducer mw init [] (closures w0)
             (<[la := [("type", VStr "@INIT")]]> (heap w0)) (log w0)
             (shapes w0) (Object_prototype w0) in
  call app n reducer [init; VObj la] w = Done s' w1 ->
  listeners w1 = [] ->
  exists api w2 w',
    dispatch (call app n) (VObj la) w = Done (VObj la) w2 /\
    createStore app n reducer init mw w0 = Done (VObj api) w' /\
    w' = set_heap (<[api := [("dispatch", VFun FDispatch);
                             ("subscribe", VFun FSubscribe);
                             ("getState", VFun FGetState)]]> (heap w2)) w2 /\
    heap w2 !! api = None /\
    currentState w' = s' /\
    getState w' = Done s' w' /\
    listeners w' = [] /\
    log w' = log w1.
Proof.
  intros la w Hred Hls.
  assert (obj_get (obj_at (heap w) la) "type" <> VUndef) as Hty.
  { unfold obj_at. simpl. by rewrite lookup_insert_eq. }
  assert (dispatch (call app n) (VObj la) w
          = Done (VObj la) (set_currentState s' w1)) as Hd.
  { by apply dispatch_no_listeners. }
  set (w2 := set_currentState s' w1).
  exists (fresh_loc w2), w2. eexists.
  split; [exact Hd|]. split.
  { unfold createStore.
    erewrite bind_Done; [|reflexivity].
    fold la. fold w.
    erewrite bind_Done; [|exact Hd]. reflexivity. }
  split; [reflexivity|].
  split; [apply fresh_loc_heap|].
  by repeat split.
Qed.
End Construction.

(** ** Application code that keeps to itself *)

Section Local.
Variable app : nat -> list value -> prog.

Lemma set_heap_self w : set_heap (heap w) w = w.
Proof. by destruct w. Qed.

Lemma exec_local n p :
  local p ->
  forall w, exists v h',
    heap w ⊆ h' /\
    exec (call app (S n)) p w = Done v (set_heap h' w).
Proof.
  induction 1 as [v|fields k _ IH|l key k _ IH|args k _ IH]; intros w.
  - exists v, (heap w). split; [done|]. cbn [exec]. unfold ret.
    by rewrite set_heap_self.
  - set (l := fresh_loc w).
    set (w1 := set_heap (<[l := mk_obj fields]> (heap w)) w).
    destruct (IH (VObj l) w1) as (v & h' & Hsub & He).
    exists v, h'. split.
    + etransitivity; [|exact Hsub]. simpl.
      apply insert_subseteq, fresh_loc_heap.
    + cbn [exec]. erewrite bind_Done; [|reflexivity].
      fold l. fold w1. by rewrite He.
  - destruct (IH (prop w (VObj l) key) w) as (v & h' & Hsub & He).
    exists v, h'. split; [done|].
    cbn [exec]. erewrite bind_Done; [|apply read_object]. exact He.
  - destruct (IH (currentState w) w) as (v & h' & Hsub & He).
    exists v, h'. split; [done|].
    cbn [exec]. erewrite bind_Done; [|reflexivity]. exact He.
Qed.

Lemma local_inert n id args :
  local (app id args) -> inert app (S (S n)) (VFun (FUser id)) args.
Proof.
  intros Hl w.
  destruct (exec_local n _ Hl (record (Invoked (VFun (FUser id)) args) w))
    as (v & h' & Hsub & He).
  exists v, h'. split; [done|].
  cbn [call]. erewrite bind_Done; [|reflexivity].
  erewrite bind_Done; [|exact He].
  erewrite bind_Done; [|reflexivity].
  unfold ret, record. destruct w; simpl.
  unfold set_log, set_heap; simpl. by rewrite <- app_assoc.
Qed.
End Local.

Lemma demo_silent_inert n : inert demo (S (S n)) silentListener [].
Proof. apply local_inert. constructor. Qed.

Lemma demo_reading_inert n : inert demo (S (S n)) readingListener [].
Proof. apply local_inert. constructor. intros _. constructor. Qed.

Lemma demo_counter_inert n s l :
  inert demo (S (S n)) counterReducer [s; VObj l].
Proof.
  apply local_inert. simpl. constructor. intros type.
  destruct s; simpl; try case_decide; constructor.
Qed.

Lemma demo_name_inert n args : inert demo (S (S n)) nameReducer args.
Proof. apply local_inert. simpl. destruct (arg 0 args); constructor. Qed.

Lemma demo_listeners_inert n mw :
  Forall (fun l => inert demo (S (S n)) l []) (listeners (demo_store mw)).
Proof.
  repeat constructor; [apply demo_silent_inert | apply demo_reading_inert].
Qed.

Lemma demo_ui_silent_inert n : inert demo_ui (S (S n)) silentListener [].
Proof. apply local_inert. constructor. Qed.

Lemma demo_ui_reading_inert n : inert demo_ui (S (S n)) readingListener [].
Proof. apply local_inert. constructor. intros _. constructor. Qed.

Lemma demo_ui_echo_inert n : inert demo_ui (S (S n)) echoListener [].
Proof. apply local_inert. constructor. intros v. constructor. Qed.

(** ** The statements at work on the small application *)

(** C1 on the counter store with the listener that returns the state it
    reads: one increment, three listeners. *)
Lemma dispatch_plain_action_witness :
  exists w',
    dispatch (call demo_ui 2) (VObj 0) demo_echo = Done (VObj 0) w' /\
    forEach (listeners (set_log demo_reduction demo_echo))
      (fun l => call demo_ui 2 l [])
      (set_currentState (VNum 1) (set_log demo_reduction demo_echo))
      = Done tt w' /\
    (forall ls1 l ls2,
       listeners (set_log demo_reduction demo_echo) = ls1 ++ l :: ls2 ->
       exists wl v wl',
         forEach ls1 (fun l => call demo_ui 2 l [])
           (set_currentState (VNum 1) (set_log demo_reduction demo_echo))
           = Done tt wl /\
         getState wl = Done (VNum 1) wl /\
         call demo_ui 2 l [] wl = Done v wl' /\
         forEach ls2 (fun l => call demo_ui 2 l []) wl' = Done tt w') /\
    currentState w' = VNum 1 /\
    getState w' = Done (VNum 1) w' /\
    listeners w' = listeners (set_log demo_reduction demo_echo) /\
    heap (set_log demo_reduction demo_echo) ⊆ heap w' /\
    shapes w' = shapes (set_log demo_reduction demo_echo) /\
    invocations (log w')
      = invocations (log (set_log demo_reduction demo_echo))
          ++ map (fun l => (l, []))
               (listeners (set_log demo_reduction demo_echo)).
Proof.
  apply (dispatch_plain_action demo_ui 2 demo_echo 0 (VNum 1)
           (set_log demo_reduction demo_echo)).
  - vm_compute. discriminate.
  - vm_compute. reflexivity.
  - repeat constructor;
      [apply demo_ui_echo_inert | apply demo_ui_silent_inert
      | apply demo_ui_reading_inert].
Defined.

(** The listeners are notified after the state has been replaced: the one
    that returns the state it reads returns the new state. *)
Example listeners_see_the_new_state :
  exists w',
    dispatch (call demo_ui 2) (VObj 0) demo_echo = Done (VObj 0) w' /\
    log w'
    = [Invoked counterReducer [VNum 0; VObj 0];
       Returned counterReducer (VNum 1);
       Invoked echoListener []; Returned echoListener (VNum 1);
       Invoked silentListener []; Returned silentListener VUndef;
       Invoked readingListener []; Returned readingListener VUndef].
Proof. eexists. split; vm_compute; reflexivity. Qed.

(** Three increments, then an unknown action. *)
Example three_increments :
  exists w,
    exec (call demo 3)
      (Call (VFun FDispatch) [VObj 0] (fun _ =>
       Call (VFun FDispatch) [VObj 0] (fun _ =>
       Call (VFun FDispatch) [VObj 0] (fun _ =>
       NewObj [("type", VStr "UNKNOWN")] (fun unknown =>
       Call (VFun FDispatch) [unknown] (fun _ =>
       Call (VFun FGetState) [] Ret)))))) (demo_store VUndef)
    = Done (VNum 3) w /\
    invocations (log w)
    = [(counterReducer, [VNum 0; VObj 0]);
       (silentListener, []); (readingListener, []);
       (counterReducer, [VNum 1; VObj 0]);
       (silentListener, []); (readingListener, []);
       (counterReducer, [VNum 2; VObj 0]);
       (silentListener, []); (readingListener, []);
       (counterReducer, [VNum 3; VObj 1001]);
       (silentListener, []); (readingListener, [])].
Proof. eexists. split; vm_compute; reflexivity. Qed.

(** C2, counterexample: without middleware a function action is rejected
    as [InvalidActionShape], although it is a function. *)
Lemma function_action_without_middleware :
  typeof incrementLater = "function" /\
  truthy (middleware (demo_store VUndef)) = false /\
  dispatch (call demo 2) incrementLater (demo_store VUndef)
    = Fail InvalidActionShape (demo_store VUndef) /\
  ~ ((exists w', dispatch (call demo 2) incrementLater (demo_store VUndef)
                   = Fail InvalidActionShape w')
     <-> typeof incrementLater <> "function"
         /\ typeof incrementLater <> "object").
Proof.
  assert (dispatch (call demo 2) incrementLater (demo_store VUndef)
          = Fail InvalidActionShape (demo_store VUndef)) as H
    by (vm_compute; reflexivity).
  repeat split; try done.
  intros [Hraise _]. destruct Hraise as [Hf _]; [by eexists | done].
Qed.

(** C2 (amended) on the counter store and a well-formed action. *)
Lemma dispatch_shape_errors_witness :
  ((exists w', dispatch (call demo 2) (VObj 0) (demo_store VUndef)
                 = Fail InvalidActionShape w')
     <-> typeof (VObj 0) <> "object") /\
  ((exists w', dispatch (call demo 2) (VObj 0) (demo_store VUndef)
                 = Fail MissingActionType w')
     <-> exists l, VObj 0 = VObj l /\
           get_prop (demo_store VUndef) (VObj 0) "type" = Found VUndef) /\
  (forall e w', dispatch (call demo 2) (VObj 0) (demo_store VUndef)
                  = Fail e w' -> w' = demo_store VUndef).
Proof.
  apply (dispatch_shape_errors demo 2 (demo_store VUndef) (VObj 0)).
  - reflexivity.
  - intros l Hl _. exists (VNum 1), (demo_reduced VUndef). split.
    + vm_compute. reflexivity.
    + apply demo_listeners_inert.
Defined.

(** The two errors, and [null], on the store of the application. *)
Example dispatch_rejections :
  dispatch (call demo 2) (VNum 5) (demo_store VUndef)
    = Fail InvalidActionShape (demo_store VUndef) /\
  dispatch (call demo 2) (VObj 1) (demo_store VUndef)
    = Fail MissingActionType (demo_store VUndef) /\
  dispatch (call demo 2) VNull (demo_store (VBool true))
    = Fail TypeError (demo_store (VBool true)).
Proof. by_computation. Qed.

(** An action that has no [type] of its own but inherits one is
    accepted. *)
Example inherited_type_is_accepted :
  obj_lookup "type" (obj_at (heap demo_inheriting) 2) = None /\
  get_prop demo_inheriting (VObj 2) "type" = Found (VStr "INCREMENT") /\
  exists w',
    dispatch (call demo 2) (VObj 2) demo_inheriting = Done (VObj 2) w' /\
    currentState w' = VNum 1.
Proof.
  split; [vm_compute; reflexivity|]. split; [vm_compute; reflexivity|].
  eexists. split; vm_compute; reflexivity.
Qed.

(** What is read off a string, and off an object, in the realm of the
    examples. *)
Example property_reads :
  get_prop empty_world (VStr "abc") "length" = Found (VNum 3) /\
  get_prop empty_world (VStr "abc") "1" = Found (VStr "b") /\
  get_prop (demo_store VUndef) (VObj 1) "constructor" = Found Object /\
  get_prop (demo_store VUndef) (VObj 1) "__proto__" = Found (VObj realm) /\
  get_prop (demo_store VUndef) (VObj 1) "type" = Found VUndef /\
  get_prop (demo_store VUndef) VUndef "type" = Unreadable.
Proof. by_computation. Qed.

(** C4 on the counter reducer without initial state. *)
Lemma createStore_init_witness :
  exists api w2 w',
    dispatch (call demo 2) (VObj 1001) demo_init = Done (VObj 1001) w2 /\
    createStore demo 2 counterReducer VUndef VUndef empty_world
      = Done (VObj api) w' /\
    w' = set_heap (<[api := [("dispatch", VFun FDispatch);
                             ("subscribe", VFun FSubscribe);
                             ("getState", VFun FGetState)]]> (heap w2)) w2 /\
    heap w2 !! api = None /\
    currentState w' = VNum 0 /\
    getState w' = Done (VNum 0) w' /\
    listeners w' = [] /\
    log w' = log demo_initialised.
Proof.
  apply (createStore_init demo 2 counterReducer VUndef VUndef empty_world
           (VNum 0) demo_initialised).
  - vm_compute. reflexivity.
  - reflexivity.
Defined.

(** Construction over combined reducers and the empty object as initial
    state: every slice gets the default its reducer declares. *)
Example createStore_defaults :
  exists f w0 api w,
    combineReducers 0 demo_slices = Done f w0 /\
    createStore demo 3 f (VObj 3) VUndef w0 = Done (VObj api) w /\
    exists l,
      currentState w = VObj l /\
      heap w !! l = Some [("counter", VNum 0); ("name", VStr "anonymous")] /\
      invocations (log w)
        = [(counterReducer, [VUndef; VObj 1001]);
           (nameReducer, [VUndef; VObj 1001])] /\
      heap w !! 1001 = Some [("type", VStr "@INIT")].
Proof.
  eexists _, _, _, _. split; [reflexivity|]. split; [vm_compute; reflexivity|].
  eexists. by_computation.
Qed.

(** Construction over combined reducers without an initial state fails. *)
Example createStore_combined_without_state :
  exists f w0 w,
    combineReducers 0 demo_slices = Done f w0 /\
    createStore demo 3 f VUndef VUndef w0 = Fail TypeError w.
Proof.
  eexists _, _, _. split; [reflexivity|]. vm_compute. reflexivity.
Qed.

(** C5 on the counter store with [true] as middleware. *)
Lemma dispatch_function_action_witness :
  dispatch (call demo 3) (VFun (FUser 3)) (demo_store (VBool true))
    = call demo 3 (VFun (FUser 3)) [VFun FDispatch; VFun FGetState]
        (demo_store (VBool true)) /\
  (inert demo 3 (VFun (FUser 3)) [VFun FDispatch; VFun FGetState] ->
   exists v w',
     dispatch (call demo 3) (VFun (FUser 3)) (demo_store (VBool true))
       = Done v w' /\
     currentState w' = currentState (demo_store (VBool true)) /\
     listeners w' = listeners (demo_store (VBool true)) /\
     invocations (log w')
       = invocations (log (demo_store (VBool true)))
           ++ [(VFun (FUser 3), [VFun FDispatch; VFun FGetState])]).
Proof.
  apply (dispatch_function_action demo 3 (demo_store (VBool true)) (FUser 3)).
  reflexivity.
Defined.

(** The middleware scenario: the function action is entered with
    [(dispatch, getState)] and dispatches [{type: 'INCREMENT'}]; the reducer
    is entered once, with that action, never with the function; [dispatch]
    returns what the function returned. *)
Example function_action_scenario :
  exists w,
    dispatch (call demo 4) incrementLater (demo_store (VBool true))
      = Done VUndef w /\
    currentState w = VNum 1 /\
    heap w !! 1001 = Some [("type", VStr "INCREMENT")] /\
    invocations (log w)
      = [(incrementLater, [VFun FDispatch; VFun FGetState]);
         (counterReducer, [VNum 0; VObj 1001]);
         (silentListener, []); (readingListener, [])].
Proof. eexists. by_computation. Qed.

(** A function action that keeps to itself changes nothing. *)
Example function_action_inert :
  exists w,
    dispatch (call demo 3) readingListener (demo_store (VBool true))
      = Done VUndef w /\
    currentState w = VNum 0 /\
    invocations (log w) = [(readingListener, [VFun FDispatch; VFun FGetState])].
Proof. eexists. by_computation. Qed.

(** C6, counterexample: a listener that is subscribed while it is already
    in the list is entered twice, not once, by the plain dispatch that
    follows. *)
Lemma resubscribed_listener_entered_twice :
  silentListener ∈ listeners (demo_store VUndef) /\
  exists u w1 w2,
    subscribe silentListener (demo_store VUndef) = Done u w1 /\
    dispatch (call demo 2) (VObj 0) w1 = Done (VObj 0) w2 /\
    entered silentListener (log w2) = 2 /\
    entered silentListener (log w2) <> 1.
Proof.
  split; [apply list_elem_of_here|]. eexists _, _, _.
  split; [reflexivity|]. split; [vm_compute; reflexivity|].
  split; [vm_compute; reflexivity|]. vm_compute. lia.
Qed.

(** C6 (amended) on the counter store: a third listener, entered once,
    last; once unsubscribed, and unsubscribed again, it is not entered. *)
Lemma subscribe_unsubscribe_witness :
  (exists w3 lg,
     dispatch (call demo 2) (VObj 0) demo_subscribed = Done (VObj 0) w3 /\
     log w3 = demo_reduction ++ lg /\
     invocations lg
       = [(silentListener, []); (readingListener, []); (nameReducer, [])] /\
     entered nameReducer lg = 1) /\
  (exists w3,
     call demo 3 (VFun (FClosure 0)) [] demo_subscribed = Done VUndef w3 /\
     listeners w3 = [silentListener; readingListener] /\
     (nameReducer ∉ listeners w3) /\
     call demo 3 (VFun (FClosure 0)) [] w3 = Done VUndef w3 /\
     exists w5 lg,
       dispatch (call demo 2) (VObj 0) w3 = Done (VObj 0) w5 /\
       log w5 = demo_reduction ++ lg /\
       invocations lg = [(silentListener, []); (readingListener, [])] /\
       entered nameReducer lg = 0).
Proof.
  destruct (subscribe_unsubscribe demo 2 (demo_store VUndef) nameReducer)
    as (id & w1 & Hs & _ & _ & _ & Hd & Hu).
  rewrite subscribe_eq in Hs. injection Hs as <- <-. split.
  - destruct (Hd 0 (VNum 1) (set_log demo_reduction demo_subscribed))
      as (w3 & lg & H1 & H2 & H3 & _ & H5).
    + vm_compute. discriminate.
    + vm_compute. reflexivity.
    + reflexivity.
    + repeat constructor;
        [apply demo_silent_inert | apply demo_reading_inert
        | apply demo_name_inert].
    + exists w3, lg. split; [exact H1|]. split; [exact H2|].
      split; [exact H3|]. apply H5. intros H.
      repeat (apply elem_of_cons in H as [H|H]; [discriminate|]).
      by apply elem_of_nil in H.
  - destruct (Hu demo_subscribed eq_refl) as (w3 & H1 & H2 & H3 & H4 & H5).
    rewrite (call_unSubscribe demo 2 0 nameReducer demo_subscribed eq_refl)
      in H1.
    injection H1 as <-.
    eexists. split; [vm_compute; reflexivity|].
    split; [vm_compute; reflexivity|]. split; [exact H3|].
    split; [exact H4|].
    destruct (H5 0 (VNum 1)
                (set_log demo_reduction
                   (set_listeners
                      (filter (fun item => item <> nameReducer)
                         (listeners demo_subscribed)) demo_subscribed)))
      as (w5 & lg & G1 & G2 & G3 & G4).
    + vm_compute. discriminate.
    + vm_compute. reflexivity.
    + reflexivity.
    + repeat constructor;
        [apply demo_silent_inert | apply demo_reading_inert].
    + exists w5, lg. split; [exact G1|]. split; [exact G2|].
      split; [exact G3 | exact G4].
Defined.

(** Subscribing, dispatching, unsubscribing (twice), dispatching. *)
Example subscribe_scenario :
  exists w,
    exec (call demo 3)
      (Call (VFun FSubscribe) [nameReducer] (fun unsubscribe =>
       Call (VFun FDispatch) [VObj 0] (fun _ =>
       Call unsubscribe [] (fun _ =>
       Call unsubscribe [] (fun _ =>
       Call (VFun FDispatch) [VObj 0] (fun _ =>
       Call (VFun FGetState) [] Ret)))))) (demo_store VUndef)
    = Done (VNum 2) w /\
    listeners w = [silentListener; readingListener] /\
    invocations (log w)
    = [(counterReducer, [VNum 0; VObj 0]);
       (silentListener, []); (readingListener, []); (nameReducer, []);
       (counterReducer, [VNum 1; VObj 0]);
       (silentListener, []); (readingListener, [])].
Proof. eexists. by_computation. Qed.

(** C7, counterexample: subscribing a listener that is already in the list
    leaves the list holding it twice, and one dispatch enters it twice. *)
Lemma listener_list_is_not_a_set :
  occurrences readingListener (listeners (demo_store VUndef)) = 1 /\
  exists u w1 w2,
    subscribe readingListener (demo_store VUndef) = Done u w1 /\
    listeners w1 = [silentListener; readingListener; readingListener] /\
    occurrences readingListener (listeners w1) = 2 /\
    ~ occurrences readingListener (listeners w1) <= 1 /\
    dispatch (call demo 2) (VObj 0) w1 = Done (VObj 0) w2 /\
    entered readingListener (log w2) = 2.
Proof.
  split; [reflexivity|]. eexists _, _, _.
  split; [reflexivity|]. split; [vm_compute; reflexivity|].
  split; [vm_compute; reflexivity|]. split; [vm_compute; lia|].
  split; vm_compute; reflexivity.
Qed.

(** C7 (amended) on the counter store: a listener listed twice. *)
Lemma subscribe_keeps_duplicates_witness :
  occurrences readingListener (listeners demo_resubscribed) = 2 /\
  exists w3 lg,
    dispatch (call demo 2) (VObj 0) demo_resubscribed = Done (VObj 0) w3 /\
    log w3 = demo_reduction ++ lg /\
    entered readingListener lg = 2 /\
    entered silentListener lg = 1.
Proof.
  destruct (subscribe_keeps_duplicates demo 2 (demo_store VUndef)
              readingListener) as (u & w1 & Hs & _ & Ho & Hd).
  rewrite subscribe_eq in Hs. injection Hs as _ <-.
  split; [exact Ho|].
  destruct (Hd 0 (VNum 1) (set_log demo_reduction demo_resubscribed))
    as (w3 & lg & H1 & H2 & H3).
  - vm_compute. discriminate.
  - vm_compute. reflexivity.
  - reflexivity.
  - repeat constructor;
      [apply demo_silent_inert | apply demo_reading_inert
      | apply demo_reading_inert].
  - exists w3, lg. split; [exact H1|]. split; [exact H2|].
    split; apply H3.
Defined.

(** C10 with [true] and a function as the two middleware values. *)
Lemma middleware_only_truthiness_witness :
  (forall w0,
     createStore demo 3 counterReducer (VNum 0) silentListener w0
       = with_middleware silentListener
           (createStore demo 3 counterReducer (VNum 0) (VBool true) w0) /\
     forall v w,
       createStore demo 3 counterReducer (VNum 0) (VBool true) w0 = Done v w ->
       middleware w = VBool true) /\
  (forall w f args, middleware w = VBool true ->
     call demo 3 f args (set_middleware silentListener w)
       = with_middleware silentListener (call demo 3 f args w) /\
     forall v w', call demo 3 f args w = Done v w' ->
       middleware w' = VBool true) /\
  (forall w p, middleware w = VBool true ->
     exec (call demo 3) p (set_middleware silentListener w)
       = with_middleware silentListener (exec (call demo 3) p w) /\
     forall v w', exec (call demo 3) p w = Done v w' ->
       middleware w' = VBool true).
Proof.
  apply (middleware_only_truthiness demo 3 counterReducer (VNum 0)
           (VBool true) silentListener); reflexivity.
Defined.

(** A function as middleware, or just [true]: the same run, and the
    function is entered as the listener it also is, never as middleware. *)
Example middleware_value_irrelevant :
  exists w,
    dispatch (call demo 4) incrementLater (demo_store (VBool true))
      = Done VUndef w /\
    dispatch (call demo 4) incrementLater (demo_store silentListener)
      = Done VUndef (set_middleware silentListener w) /\
    entered silentListener (log w) = 1.
Proof. eexists. by_computation. Qed.

(** [shallowEqual] on a few objects: equal contents one level deep, a
    change one level below, and equal contents under different
    references. *)
Example shallowEqual_runs :
  shallowEqual demo_props (VObj 0) (VObj 1) = true /\
  shallowEqual demo_props (VObj 2) (VObj 3) = true /\
  shallowEqual
    (set_heap (<[4 := [("name", VStr "grace")]]> (heap demo_props))
       demo_props)
    (VObj 2) (VObj 3) = true /\
  shallowEqual demo_props (VObj 2) (VObj 5) = false /\
  shallowEqual demo_props (VObj 0) (VObj 2) = false /\
  shallowEqual demo_props VNull VNull = true /\
  shallowEqual demo_props VNull (VObj 0) = false /\
  shallowEqual demo_props (VNum 5) (VNum 5) = true.
Proof. by_computation. Qed.

(** [shallowEqual] and a property that is not enumerable: the one key of
    [{length: 1}] is an own key of the array [['v']], with the same value,
    and both have one enumerable key; the one key of the array is not a
    key of [{length: 1}]. *)
Example shallowEqual_sees_hidden_properties :
  Object_keys demo_array (VObj 1) = ["0"] /\
  has_own demo_array (VObj 1) "length" = true /\
  shallowEqual demo_array (VObj 0) (VObj 1) = true /\
  shallowEqual demo_array (VObj 1) (VObj 0) = false /\
  shallowEqual demo_array (VObj 1) (VObj 2) = true /\
  shallowEqual demo_array (VObj 0) (VObj 2) = false.
Proof. by_computation. Qed.

(** * Further properties of the store *)

(** ** Invariants *)

Lemma grows_refl w : grows w w.
Proof. by repeat split. Qed.

Lemma grows_used w w' l : grows w w' -> l ∈ used w -> l ∈ used w'.
Proof.
  intros (_ & _ & _ & Hh & Hop & Hsh) Hl.
  pose proof (Hsh l Hl) as Hshl. unfold used in *.
  apply elem_of_union in Hl as [Hl|Hl];
    [apply elem_of_union in Hl as [Hl|Hl]|].
  - rewrite Hop. set_solver.
  - apply elem_of_union_l, elem_of_union_r.
    apply elem_of_dom in Hl as [o Ho]. apply elem_of_dom. exists o.
    by eapply lookup_weaken.
  - apply elem_of_union_r, elem_of_dom. rewrite Hshl.
    by apply elem_of_dom.
Qed.

Lemma grows_trans w1 w2 w3 : grows w1 w2 -> grows w2 w3 -> grows w1 w3.
Proof.
  intros H12 H23.
  pose proof (grows_used w1 w2) as Hused.
  destruct H12 as (Hr & Hm & Hc & Hh & Hop & Hsh).
  destruct H23 as (Hr' & Hm' & Hc' & Hh' & Hop' & Hsh').
  assert (grows w1 w2) as H12 by done.
  repeat split; try congruence; try (by etransitivity).
  intros l Hl. rewrite Hsh' by (by apply Hused). by apply Hsh.
Qed.

Lemma grows_set_heap w0 w o x :
  o ∉ used w0 -> grows w0 w -> grows w0 (set_heap (<[o := x]> (heap w)) w).
Proof.
  intros Ho (Hr & Hm & Hc & Hh & Hop & Hsh).
  repeat split; simpl; try done.
  apply insert_subseteq_r; [by apply unused_heap | done].
Qed.

Lemma grows_set_shapes w0 w o x :
  o ∉ used w0 -> grows w0 w ->
  grows w0 (set_shapes (<[o := x]> (shapes w)) w).
Proof.
  intros Ho (Hr & Hm & Hc & Hh & Hop & Hsh).
  repeat split; simpl; try done.
  intros l Hl. rewrite lookup_insert_ne by (intros ->; done). by apply Hsh.
Qed.

(** An assignment to an object that did not exist in [w0] keeps the
    objects of [w0] as they are. *)
Lemma assign_grows w0 o key v w w' :
  o ∉ used w0 -> grows w0 w -> assign o key v w = Some w' -> grows w0 w'.
Proof.
  intros Ho Hw. unfold assign.
  destruct (bool_decide _ && bool_decide _);
    (destruct (holder w o key) as [h|];
       [|intros [= <-]; by (apply grows_set_shapes || apply grows_set_heap)]);
    (destruct (is_proto_accessor w h key);
       [|intros [= <-];
         by (apply grows_set_shapes || apply grows_set_heap)]);
    destruct v; intros [= <-]; try done; by apply grows_set_shapes.
Qed.

Lemma keeps_ret {A} (v : A) : keeps (ret v).
Proof. intros w. apply grows_refl. Qed.

Lemma keeps_throw {A} e : keeps (@throw A e).
Proof. intros w. apply grows_refl. Qed.

Lemma keeps_bind {A B} (c : M A) (k : A -> M B) :
  keeps c -> (forall x, keeps (k x)) -> keeps (bind c k).
Proof.
  intros Hc Hk w. specialize (Hc w). unfold bind.
  destruct (c w) as [v w1|e w1|]; [|done..].
  specialize (Hk v w1). destruct (k v w1); try done; by eapply grows_trans.
Qed.

Lemma keeps_get {A} (f : world -> A) : keeps (get f).
Proof. intros w. apply grows_refl. Qed.

Lemma keeps_modify (f : world -> world) :
  (forall w, grows w (f w)) -> keeps (modify f).
Proof. intros Hf w. apply Hf. Qed.

Lemma keeps_read v key : keeps (read v key).
Proof.
  intros w. unfold read.
  destruct (get_prop w v key); [apply grows_refl..|done].
Qed.

Lemma keeps_new_object fields : keeps (new_object fields).
Proof.
  intros w. unfold new_object, alloc. repeat split; simpl; try done.
  apply insert_subseteq, fresh_loc_heap.
Qed.

Lemma keeps_new_closure c : keeps (new_closure c).
Proof.
  apply keeps_bind; [apply keeps_get|]. intros id.
  apply keeps_bind; [|intros _; apply keeps_ret].
  apply keeps_modify. intros w. repeat split; simpl; try done.
  by apply prefix_app_r.
Qed.

Lemma keeps_forEach {A} (xs : list A) (f : A -> M value) :
  (forall x, keeps (f x)) -> keeps (forEach xs f).
Proof.
  intros Hf. induction xs as [|x xs IH]; simpl; [apply keeps_ret|].
  apply keeps_bind; [apply Hf | by intros _].
Qed.

Lemma keeps_getState : keeps getState.
Proof. apply keeps_get. Qed.

Lemma keeps_unSubscribe listener : keeps (unSubscribe listener).
Proof.
  apply keeps_bind; [|intros _; apply keeps_ret].
  apply keeps_modify. intros w. by repeat split.
Qed.

Lemma keeps_subscribe listener : keeps (subscribe listener).
Proof.
  apply keeps_bind; [|intros _; apply keeps_new_closure].
  apply keeps_modify. intros w. by repeat split.
Qed.

Section KeepsCallee.
Variable c : value -> list value -> M value.
Hypothesis Hc : forall f args, keeps (c f args).

Lemma keeps_exec p : keeps (exec c p).
Proof.
  induction p as [v|v|fields k IH|o key k IH|f args k IH]; simpl.
  - apply keeps_ret.
  - apply keeps_throw.
  - apply keeps_bind; [apply keeps_new_object | done].
  - apply keeps_bind; [apply keeps_read | done].
  - apply keeps_bind; [apply Hc | done].
Qed.

Lemma keeps_dispatch action : keeps (dispatch c action).
Proof.
  unfold dispatch. apply keeps_bind; [apply keeps_get|]. intros mw.
  destruct (truthy mw && (typeof action =? "function")); [apply Hc|].
  destruct (negb (typeof action =? "object")); [apply keeps_throw|].
  apply keeps_bind; [apply keeps_read|]. intros type.
  destruct (typeof type =? "undefined"); [apply keeps_throw|].
  apply keeps_bind; [apply keeps_get|]. intros reducer.
  apply keeps_bind; [apply keeps_get|]. intros state.
  apply keeps_bind; [apply Hc|]. intros newState.
  apply keeps_bind; [by apply keeps_modify|]. intros _.
  apply keeps_bind; [apply keeps_get|]. intros ls.
  apply keeps_bind; [|intros _; apply keeps_ret].
  apply keeps_forEach. intros l. apply Hc.
Qed.

(** The loop of [mainReducer] writes to the object it is building, which
    did not exist in the world [w0] the call started from. *)
Lemma mainReducer_loop_grows w0 newStore reducers state action keys :
  newStore ∉ used w0 ->
  forall w, grows w0 w ->
    match forEach keys (fun item =>
            let* r := read (VObj reducers) item in
            let* s := read state item in
            let* v := c r [s; action] in
            write newStore item v) w with
    | Done _ w' | Fail _ w' => grows w0 w'
    | Timeout => True
    end.
Proof.
  intros Hnew. induction keys as [|item keys IH]; intros w Hw; [done|].
  cbn [forEach]. unfold bind at 1. unfold bind at 1.
  rewrite read_object. unfold bind at 1. unfold read at 1.
  destruct (get_prop w state item) as [s| |]; [|done..].
  unfold bind at 1.
  pose proof (Hc (prop w (VObj reducers) item) [s; action] w) as Hcall.
  destruct (c _ _ w) as [v w1|e w1|]; [| by eapply grows_trans | done].
  assert (grows w0 w1) as Hw1 by (by eapply grows_trans).
  unfold write.
  destruct (assign newStore item v w1) as [w2|] eqn:E; [|done].
  apply IH. by eapply assign_grows.
Qed.

Lemma keeps_mainReducer reducers state action :
  keeps (mainReducer c reducers state action).
Proof.
  intros w. unfold mainReducer.
  unfold bind at 1, get at 1. unfold bind at 1, modify at 1.
  unfold bind at 1, get at 1. unfold bind at 1.
  set (newStore := fresh_loc w).
  set (w1 := set_heap (<[newStore := []]> (heap w)) w).
  pose proof (fresh_loc_unused w) as Hnew. fold newStore in Hnew.
  pose proof (mainReducer_loop_grows w newStore reducers state action
                (obj_keys (obj_at (heap w1) reducers)) Hnew w1) as Hloop.
  destruct (forEach _ _ w1) as [u w2|e w2|]; try done; apply Hloop;
    apply grows_set_heap; try done; apply grows_refl.
Qed.
End KeepsCallee.

Lemma keeps_call app n : forall f args, keeps (call app n f args).
Proof.
  induction n as [|n IH]; intros f args; [done|].
  destruct f as [| | | | | |[| | |id|id]]; simpl; try apply keeps_throw.
  - by apply keeps_dispatch.
  - apply keeps_getState.
  - apply keeps_subscribe.
  - apply keeps_bind; [apply keeps_get|]. intros [[l|r]|].
    + apply keeps_unSubscribe.
    + by apply keeps_mainReducer.
    + apply keeps_throw.
  - apply keeps_bind; [by apply keeps_modify|]. intros _.
    apply keeps_bind; [by apply keeps_exec|]. intros v.
    apply keeps_bind; [by apply keeps_modify|]. intros _. apply keeps_ret.
Qed.

(** ** [combineReducers] *)

(** Assignment to an object as a literal makes it, under a name that is
    not [__proto__], sets its own enumerable property. *)
Lemma assign_plain o key v w :
  key <> "__proto__" -> shapes w !! o = None ->
  assign o key v w
  = Some (set_heap (<[o := obj_set key v (obj_at (heap w) o)]> (heap w)) w).
Proof.
  intros Hkey Ho. unfold assign.
  assert (hidden (shape_at w o) = []) as ->.
  { unfold shape_at, shape_in. rewrite Ho. by case_decide. }
  cbn [obj_lookup].
  rewrite (bool_decide_eq_false_2 (is_Some None)) by (by intros [? ?]).
  rewrite andb_false_r.
  destruct (holder w o key) as [h|]; [|done].
  unfold is_proto_accessor.
  apply String.eqb_neq in Hkey. by rewrite Hkey.
Qed.

Section Chains.
Variables h h' : gmap loc obj.
Variable sh : gmap loc shape.
Variable op : loc.
Hypothesis Hop : is_Some (h !! op).
Hypothesis Hsh : forall l s l',
  sh !! l = Some s -> proto s = ProtoAt l' -> is_Some (h !! l').
Hypothesis Hsub : h ⊆ h'.

Lemma proto_allocated l l' :
  proto (shape_in sh op l) = ProtoAt l' -> is_Some (h !! l').
Proof.
  unfold shape_in. destruct (sh !! l) as [s|] eqn:E.
  - intros Hp. by eapply Hsh.
  - case_decide; simpl; [done|]. by intros [= <-].
Qed.

Lemma obj_at_stable_allocated l : is_Some (h !! l) -> obj_at h' l = obj_at h l.
Proof.
  intros [o Ho]. unfold obj_at. by rewrite Ho, (lookup_weaken _ _ _ _ Ho Hsub).
Qed.

Lemma own_in_stable l key :
  is_Some (h !! l) -> own_in h' sh op l key = own_in h sh op l key.
Proof. intros Hl. unfold own_in. by rewrite obj_at_stable_allocated. Qed.

Lemma holder_in_stable fuel :
  forall l key, is_Some (h !! l) ->
    holder_in h' sh op fuel l key = holder_in h sh op fuel l key.
Proof.
  induction fuel as [|fuel IH]; intros l key Hl; cbn [holder_in];
    rewrite own_in_stable by done; [done|].
  destruct (own_in h sh op l key); [done|].
  destruct (proto (shape_in sh op l)) as [|l'] eqn:E; [done|].
  apply IH. by eapply proto_allocated.
Qed.

Lemma holder_in_allocated fuel :
  forall l key hn, is_Some (h !! l) ->
    holder_in h sh op fuel l key = Some hn -> is_Some (h !! hn).
Proof.
  induction fuel as [|fuel IH]; intros l key hn Hl; cbn [holder_in];
    destruct (own_in h sh op l key); try (by intros [= <-]); try done.
  destruct (proto (shape_in sh op l)) as [|l'] eqn:E; [done|].
  apply IH. by eapply proto_allocated.
Qed.
End Chains.

(** In a world where every prototype is allocated, what a property of an
    allocated object reads as is not changed by allocations. *)
Lemma prop_stable w w' l key :
  closed w -> heap w ⊆ heap w' -> shapes w' = shapes w ->
  Object_prototype w' = Object_prototype w ->
  is_Some (heap w !! l) ->
  prop w' (VObj l) key = prop w (VObj l) key.
Proof.
  intros [Hop Hsh] Hsub Hshapes Hproto Hl.
  unfold prop, get_prop, holder. rewrite Hshapes, Hproto.
  rewrite (holder_in_stable _ _ _ _ Hop Hsh Hsub) by done.
  destruct (holder_in _ _ _ _ l key) as [hn|] eqn:E; [|done].
  assert (is_Some (heap w !! hn)) as Hhn
    by (by eapply (holder_in_allocated _ _ _ Hop Hsh)).
  unfold is_proto_accessor, own_prop, getPrototypeOf, shape_at.
  rewrite Hshapes, Hproto.
  rewrite (obj_at_stable_allocated _ _ Hsub hn Hhn).
  by rewrite (own_in_stable _ _ _ _ Hsub hn key Hhn).
Qed.

Lemma closed_stable w w' :
  closed w -> heap w ⊆ heap w' -> shapes w' = shapes w ->
  Object_prototype w' = Object_prototype w -> closed w'.
Proof.
  intros [Hop Hsh] Hsub Hshapes Hproto. split.
  - rewrite Hproto. destruct Hop as [o Ho]. exists o.
    by eapply lookup_weaken.
  - intros l s l' Hs Hp. rewrite Hshapes in Hs.
    destruct (Hsh l s l' Hs Hp) as [o Ho]. exists o. by eapply lookup_weaken.
Qed.

Section Combine.
Variable app : nat -> list value -> prog.

(** The loop of [mainReducer] over the remaining slices [rs2], none named
    [__proto__], the object under construction at [l] holding [acc] so
    far; [wb] is the world the call started from. *)
Lemma slices_loop n wb lr ls l action rs :
  closed wb -> l ∉ used wb ->
  is_Some (heap wb !! ls) -> heap wb !! lr = Some rs ->
  forall rs2 acc w,
    heap wb ⊆ heap w -> shapes w = shapes wb ->
    Object_prototype w = Object_prototype wb ->
    heap w !! l = Some acc ->
    (forall k r, (k, r) ∈ rs2 -> obj_lookup k rs = Some r) ->
    NoDup (obj_keys rs2) ->
    "__proto__" ∉ obj_keys rs2 ->
    (forall k, k ∈ obj_keys rs2 -> k ∉ obj_keys acc) ->
    ordered (obj_keys acc ++ obj_keys rs2) = true ->
    (forall k r, (k, r) ∈ rs2 ->
       inert app n r [prop wb (VObj ls) k; action]) ->
    exists vs h',
      length vs = length rs2 /\
      forEach (obj_keys rs2) (fun item =>
        let* r := read (VObj lr) item in
        let* s := read (VObj ls) item in
        let* v := call app n r [s; action] in
        write l item v) w
        = Done tt (set_log (log w ++ slice_events wb (VObj ls) action rs2 vs)
                           (set_heap h' w)) /\
      h' !! l = Some (acc ++ zip (obj_keys rs2) vs) /\
      heap wb ⊆ h'.
Proof.
  intros Hclosed Hl Hls Hrs.
  pose proof (unused_heap wb l Hl) as Hlh.
  pose proof (unused_shapes wb l Hl) as Hlsh.
  induction rs2 as [|[k r] rs2 IH];
    intros acc w Hsub Hshapes Hproto Hacc Hlook Hnd Hnp Hfresh Hord Hin.
  - exists [], (heap w). split; [done|]. split.
    { simpl. unfold ret, slice_events. simpl. rewrite app_nil_r.
      by destruct w. }
    split; [by rewrite app_nil_r | done].
  - unfold obj_keys in Hnd, Hnp. simpl in Hnd, Hnp.
    apply NoDup_cons in Hnd as [Hk Hnd].
    apply not_elem_of_cons in Hnp as [Hkp Hnp].
    destruct (Hin k r (list_elem_of_here _ _) w) as (v & h1 & Hsub1 & Hcall).
    assert (h1 !! l = Some acc) as Hacc1 by (by eapply lookup_weaken).
    set (w1 := set_log (log w ++ [Invoked r [prop wb (VObj ls) k; action];
                                   Returned r v]) (set_heap h1 w)).
    set (w2 := set_heap (<[l := acc ++ [(k, v)]]> h1) w1).
    destruct (IH (acc ++ [(k, v)]) w2)
      as (vs & h' & Hlen & Hloop & Hres & Hext).
    { simpl. apply insert_subseteq_r; [done|]. by etransitivity. }
    { done. }
    { done. }
    { simpl. apply lookup_insert_eq. }
    { intros k' r' H'. apply Hlook. by apply list_elem_of_further. }
    { done. }
    { done. }
    { intros k' Hk' Hin'. unfold obj_keys in Hin'.
      rewrite fmap_app in Hin'. apply elem_of_app in Hin' as [Hin'|Hin'].
      - eapply Hfresh; [|exact Hin']. by apply list_elem_of_further.
      - apply list_elem_of_singleton in Hin'. simpl in Hin'.
        subst k'. by apply Hk. }
    { unfold obj_keys. rewrite fmap_app. simpl. fold (obj_keys acc).
      fold (obj_keys rs2). by rewrite <- app_assoc. }
    { intros k' r' H'. apply Hin. by apply list_elem_of_further. }
    assert (ordered (obj_keys acc ++ [k]) = true) as Hlast.
    { change (obj_keys ((k, r) :: rs2)) with ([k] ++ obj_keys rs2) in Hord.
      rewrite app_assoc in Hord. by apply ordered_app_l in Hord. }
    exists (v :: vs), h'. split; [simpl; by rewrite Hlen|]. split.
    { change (obj_keys ((k, r) :: rs2)) with (k :: obj_keys rs2).
      cbn [forEach].
      erewrite bind_Done; cycle 1.
      { erewrite bind_Done; cycle 1.
        { apply read_own. unfold obj_at.
          rewrite (lookup_weaken _ _ _ _ Hrs Hsub). cbn [default].
          apply Hlook, list_elem_of_here. }
        erewrite bind_Done; [|apply read_object].
        rewrite (prop_stable wb w ls k) by done.
        erewrite bind_Done; [|exact Hcall].
        unfold write. fold w1.
        rewrite assign_plain; [reflexivity | by intros -> |].
        unfold w1. simpl. by rewrite Hshapes. }
      replace (obj_at (heap w1) l) with acc
        by (unfold obj_at, w1; simpl; by rewrite Hacc1).
      rewrite obj_set_fresh
        by (done || apply Hfresh; apply list_elem_of_here).
      change (heap w1) with h1. fold w2. rewrite Hloop.
      f_equal. unfold w2, w1. destruct w; simpl.
      unfold set_log, set_heap; simpl. f_equal.
      unfold slice_events. simpl. by rewrite <- app_assoc. }
    split; [|done].
    rewrite Hres. simpl. by rewrite <- app_assoc.
Qed.
End Combine.

Section CombineReducers.
Variable app : nat -> list value -> prog.

Lemma call_mainReducer n id lr args w :
  closures w !! id = Some (MainReducer lr) ->
  call app (S n) (VFun (FClosure id)) args w
    = mainReducer (call app n) lr (arg 0 args) (arg 1 args) w.
Proof. intros H. simpl. unfold bind at 1, get at 1. by rewrite H. Qed.

(** One call of the reducer built by [combineReducers], on a state object,
    with slice reducers that do not use the store. *)
Lemma mainReducer_call n w id lr ls rs action :
  closures w !! id = Some (MainReducer lr) ->
  closed w ->
  heap w !! lr = Some rs ->
  NoDup (obj_keys rs) ->
  ordered (obj_keys rs) = true ->
  "__proto__" ∉ obj_keys rs ->
  is_Some (heap w !! ls) ->
  (forall k r, (k, r) ∈ rs -> inert app n r [prop w (VObj ls) k; action]) ->
  exists l vs w',
    call app (S n) (VFun (FClosure id)) [VObj ls; action] w
      = Done (VObj l) w' /\
    (l ∉ used w) /\
    length vs = length rs /\
    heap w' !! l = Some (zip (obj_keys rs) vs) /\
    log w' = log w ++ slice_events w (VObj ls) action rs vs /\
    heap w ⊆ heap w' /\
    shapes w' = shapes w /\
    Object_prototype w' = Object_prototype w /\
    closures w' = closures w /\
    currentState w' = currentState w /\
    listeners w' = listeners w.
Proof.
  intros Hc Hclosed Hrs Hnd Hord Hnp Hls Hin.
  set (l := fresh_loc w).
  pose proof (fresh_loc_unused w) as Hl. fold l in Hl.
  pose proof (unused_heap w l Hl) as Hlh.
  set (w0 := set_heap (<[l := []]> (heap w)) w).
  destruct (slices_loop app n w lr ls l action rs Hclosed Hl Hls Hrs rs [] w0)
    as (vs & h' & Hlen & Hloop & Hres & Hext); try done.
  { simpl. by apply insert_subseteq. }
  { simpl. apply lookup_insert_eq. }
  { intros k r H. by apply obj_lookup_NoDup. }
  { intros k _ H. by apply elem_of_nil in H. }
  exists l, vs. eexists. split.
  { rewrite (call_mainReducer n id lr) by done. unfold mainReducer.
    erewrite bind_Done; [|reflexivity]. cbv beta.
    erewrite bind_Done; [|reflexivity]. cbv beta.
    erewrite bind_Done; [|reflexivity]. cbv beta.
    fold l. fold w0.
    replace (obj_at (heap w0) lr) with rs; cycle 1.
    { unfold obj_at. simpl.
      rewrite lookup_insert_ne by (intros ->; congruence). by rewrite Hrs. }
    change (arg 0 [VObj ls; action]) with (VObj ls).
    change (arg 1 [VObj ls; action]) with action.
    erewrite bind_Done; [|exact Hloop]. reflexivity. }
  split; [done|]. split; [done|]. simpl.
  by repeat (split; [done|]).
Qed.

(** C3 (amended). The function returned by [combineReducers] over slices
    none of which is named [__proto__], their names in the order in which
    [Object.keys] gives them, is, after anything that is run in between,
    a reducer which, applied to a state object and an action,
    returns an object that did not exist before the call and is as an
    object literal makes it, with one own entry per slice name, in the
    order of the names, whose value is what that slice's reducer returned
    when called with the action and with what the name reads as on the
    state: the state's own property, else the one it inherits, else
    undefined.  A second call returns yet another object. *)
Theorem combined_reducer n m w0 lr f w1 p u w ls rs action :
  combineReducers lr w0 = Done f w1 ->
  exec (call app m) p w1 = Done u w ->
  closed w ->
  heap w !! lr = Some rs ->
  NoDup (obj_keys rs) ->
  ordered (obj_keys rs) = true ->
  "__proto__" ∉ obj_keys rs ->
  is_Some (heap w !! ls) ->
  (forall k r, (k, r) ∈ rs -> inert app n r [prop w (VObj ls) k; action]) ->
  exists l vs w',
    call app (S n) f [VObj ls; action] w = Done (VObj l) w' /\
    (l ∉ used w) /\
    length vs = length rs /\
    heap w' !! l = Some (zip (obj_keys rs) vs) /\
    shape_at w' l = Shape (ProtoAt (Object_prototype w)) [] /\
    log w' = log w ++ slice_events w (VObj ls) action rs vs /\
    (forall key, holder w ls key = None -> prop w (VObj ls) key = VUndef) /\
    currentState w' = currentState w /\
    exists l2 vs2 w'',
      call app (S n) f [VObj ls; action] w' = Done (VObj l2) w'' /\
      l2 <> l /\
      heap w'' !! l = Some (zip (obj_keys rs) vs) /\
      heap w'' !! l2 = Some (zip (obj_keys rs) vs2).
Proof.
  intros Hcomb Hp Hclosed Hrs Hnd Hord Hnp Hls Hin.
  injection Hcomb as <- <-.
  assert (closures w !! length (closures w0) = Some (MainReducer lr)) as Hc.
  { pose proof (keeps_exec (call app m) (keeps_call app m) p
                  (set_closures (closures w0 ++ [MainReducer lr]) w0)) as Hk.
    rewrite Hp in Hk. destruct Hk as (_ & _ & Hpre & _).
    eapply prefix_lookup_Some; [|exact Hpre]. simpl.
    by apply list_lookup_middle. }
  destruct (mainReducer_call n w _ lr ls rs action Hc Hclosed Hrs Hnd Hord
              Hnp Hls Hin)
    as (l & vs & w' & Hcall & Hl & Hlen & Hres & Hlog & Hsub & Hsh & Hop
        & Hc' & Hst & _).
  exists l, vs, w'. repeat (split; [done|]).
  split.
  { unfold shape_at, shape_in. rewrite Hsh, Hop.
    rewrite (unused_shapes w l Hl).
    by rewrite decide_False by (by apply unused_prototype). }
  split; [done|]. split.
  { intros key Hk. unfold prop, get_prop. by rewrite Hk. }
  split; [done|].
  destruct (mainReducer_call n w' (length (closures w0)) lr ls rs action)
    as (l2 & vs2 & w'' & Hcall2 & Hl2 & Hlen2 & Hres2 & _ & Hsub2 & _);
    try done.
  { by rewrite Hc'. }
  { by eapply closed_stable. }
  { by eapply lookup_weaken. }
  { destruct Hls as [o Ho]. exists o. by eapply lookup_weaken. }
  { intros k r Hkr. rewrite (prop_stable w w' ls k) by done. by apply Hin. }
  exists l2, vs2, w''. split; [done|]. split.
  { intros ->. apply unused_heap in Hl2. congruence. }
  split; [by eapply lookup_weaken | done].
Qed.
End CombineReducers.

Lemma realm_closed w :
  shapes w = realm_shapes -> Object_prototype w = realm ->
  is_Some (heap w !! realm) -> closed w.
Proof.
  intros Hsh Hop Hr. split; [by rewrite Hop|].
  intros l s l' Hs Hp. rewrite Hsh in Hs. unfold realm_shapes in Hs.
  apply lookup_singleton_Some in Hs as [_ <-]. discriminate.
Qed.

(** C3 (amended) on [{counter, name}] and the state [{counter: 5}]. *)
Lemma combined_reducer_witness :
  exists l vs w',
    call demo 3 (VFun (FClosure 0)) [VObj 1; VObj 2] demo_slices
      = Done (VObj l) w' /\
    (l ∉ used demo_slices) /\
    length vs = 2 /\
    heap w' !! l = Some (zip ["counter"; "name"] vs) /\
    shape_at w' l = Shape (ProtoAt realm) [] /\
    log w' = log demo_slices
      ++ slice_events demo_slices (VObj 1) (VObj 2)
           [("counter", counterReducer); ("name", nameReducer)] vs /\
    (forall key, holder demo_slices 1 key = None ->
       prop demo_slices (VObj 1) key = VUndef) /\
    currentState w' = currentState demo_slices /\
    exists l2 vs2 w'',
      call demo 3 (VFun (FClosure 0)) [VObj 1; VObj 2] w'
        = Done (VObj l2) w'' /\
      l2 <> l /\
      heap w'' !! l = Some (zip ["counter"; "name"] vs) /\
      heap w'' !! l2 = Some (zip ["counter"; "name"] vs2).
Proof.
  apply (combined_reducer demo 2 1 (set_closures [] demo_slices) 0
           (VFun (FClosure 0)) demo_slices (Ret VUndef) VUndef demo_slices 1
           [("counter", counterReducer); ("name", nameReducer)] (VObj 2)).
  - reflexivity.
  - reflexivity.
  - apply realm_closed; [reflexivity | reflexivity |].
    eexists. vm_compute. reflexivity.
  - vm_compute. reflexivity.
  - refine (bool_decide_unpack _ _). vm_compute. exact I.
  - reflexivity.
  - refine (bool_decide_unpack _ _). vm_compute. exact I.
  - eexists. vm_compute. reflexivity.
  - intros k r H. apply elem_of_cons in H as [H|H].
    + injection H as -> ->. apply demo_counter_inert.
    + apply list_elem_of_singleton in H. injection H as -> ->.
      apply demo_name_inert.
Defined.

(** The combined reducer on [{counter: 5}]: a new object
    [{counter: 6, name: 'anonymous'}], the absent slice having been given
    [undefined]. *)
Example mainReducer_run :
  exists w',
    call demo 3 (VFun (FClosure 0)) [VObj 1; VObj 2] demo_slices
      = Done (VObj 1001) w' /\
    heap w' !! 1001
      = Some [("counter", VNum 6); ("name", VStr "anonymous")] /\
    invocations (log w')
      = [(counterReducer, [VNum 5; VObj 2]); (nameReducer, [VUndef; VObj 2])].
Proof. eexists. by_computation. Qed.

(** The combined reducer on [undefined] fails where it reads the first
    slice. *)
Example mainReducer_undefined_state :
  exists w',
    call demo 3 (VFun (FClosure 0)) [VUndef; VObj 2] demo_slices
      = Fail TypeError w'.
Proof. eexists. vm_compute. reflexivity. Qed.

(** C3, counterexample: over a slice named [__proto__], with a state that
    holds 5 under that name, the slice reducer is called with 5 and
    returns 6, but the object returned by the combined reducer has no
    entry for the slice: the assignment went to the setter of
    [Object.prototype], which drops a number, and the name still reads as
    the prototype. *)
Lemma proto_slice_is_not_an_entry :
  exists f w1 l w',
    combineReducers 1 demo_inherited_slices = Done f w1 /\
    Object_keys w1 (VObj 1) = ["__proto__"] /\
    prop w1 (VObj 1) "__proto__" = counterReducer /\
    prop w1 (VObj 4) "__proto__" = VNum 5 /\
    call demo 3 f [VObj 4; VObj 3] w1 = Done (VObj l) w' /\
    log w' = [Invoked counterReducer [VNum 5; VObj 3];
              Returned counterReducer (VNum 6)] /\
    heap w' !! l = Some [] /\
    has_own w' (VObj l) "__proto__" = false /\
    prop w' (VObj l) "__proto__" = VObj realm /\
    prop w' (VObj l) "__proto__" <> VNum 6.
Proof.
  eexists _, _, _, _. split; [reflexivity|].
  split; [vm_compute; reflexivity|]. split; [vm_compute; reflexivity|].
  split; [vm_compute; reflexivity|]. split; [vm_compute; reflexivity|].
  split; [vm_compute; reflexivity|]. split; [vm_compute; reflexivity|].
  split; [vm_compute; reflexivity|]. split; [vm_compute; reflexivity|].
  vm_compute. discriminate.
Qed.

(** A slice named as a member of [Object.prototype]: the state [{}] has no
    such property of its own, and the slice reducer is called with the
    inherited one, not with [undefined]. *)
Example inherited_slice_is_read :
  exists f w1 l w',
    combineReducers 0 demo_inherited_slices = Done f w1 /\
    has_own w1 (VObj 2) "constructor" = false /\
    call demo 3 f [VObj 2; VObj 3] w1 = Done (VObj l) w' /\
    invocations (log w') = [(nameReducer, [Object; VObj 3])] /\
    heap w' !! l = Some [("constructor", Object)].
Proof.
  eexists _, _, _, _. split; [reflexivity|].
  split; [vm_compute; reflexivity|]. split; [vm_compute; reflexivity|].
  split; vm_compute; reflexivity.
Qed.

(** A slice named [__proto__] whose reducer returns an object: the object
    becomes the prototype of the result. *)
Example proto_slice_sets_the_prototype :
  exists f w1 l w',
    combineReducers 1 demo_inherited_slices = Done f w1 /\
    call demo 3 f [VObj 2; VObj 3] w1 = Done (VObj l) w' /\
    invocations (log w') = [(counterReducer, [VObj realm; VObj 3])] /\
    heap w' !! l = Some [] /\
    getPrototypeOf w' l = VObj realm.
Proof.
  eexists _, _, _, _. split; [reflexivity|].
  split; [vm_compute; reflexivity|]. split; [vm_compute; reflexivity|].
  split; vm_compute; reflexivity.
Qed.

(** X1. Whatever is run against the store, and however it ends, the
    reducer and the middleware stay the ones of construction, every closure
    handed out so far still denotes what it did, and every object that
    existed keeps its properties, enumerable or not, and its prototype:
    the store replaces its state, it never writes to it. *)
Theorem store_keeps_configuration app n p w w' :
  (exists v, exec (call app n) p w = Done v w') \/
  (exists e, exec (call app n) p w = Fail e w') ->
  rootReducer w' = rootReducer w /\
  middleware w' = middleware w /\
  (forall id c, closures w !! id = Some c -> closures w' !! id = Some c) /\
  (forall l o, heap w !! l = Some o -> heap w' !! l = Some o) /\
  Object_prototype w' = Object_prototype w /\
  (forall l, l ∈ used w -> shape_at w' l = shape_at w l).
Proof.
  intros H.
  pose proof (keeps_exec (call app n) (keeps_call app n) p w) as Hk.
  assert (grows w w') as (Hr & Hm & Hc & Hh & Hop & Hsh)
    by (destruct H as [[v H]|[e H]]; by rewrite H in Hk).
  repeat split; try done.
  - intros id c Hid. by eapply prefix_lookup_Some.
  - intros l o Hl. by eapply lookup_weaken.
  - intros l Hl. unfold shape_at, shape_in. by rewrite Hop, (Hsh l Hl).
Qed.

(** X2. The function returned by [subscribe] keeps working: after any
    program run against the store it still removes its listener, and
    nothing but the listener list changes. *)
Theorem unsubscribe_after_anything app n m w l p v w2 :
  exec (call app n) p
    (set_closures (closures w ++ [UnSubscribe l])
       (set_listeners (listeners w ++ [l]) w)) = Done v w2 ->
  exists unsubscribe w1,
    subscribe l w = Done unsubscribe w1 /\
    exec (call app n) p w1 = Done v w2 /\
    call app (S m) unsubscribe [] w2
      = Done VUndef
          (set_listeners (filter (fun item => item <> l) (listeners w2)) w2) /\
    l ∉ filter (fun item => item <> l) (listeners w2).
Proof.
  intros Hp. eexists _, _. split; [apply subscribe_eq|]. split; [exact Hp|].
  split.
  - apply call_unSubscribe.
    pose proof (keeps_exec (call app n) (keeps_call app n) p
                  (set_closures (closures w ++ [UnSubscribe l])
                     (set_listeners (listeners w ++ [l]) w))) as Hk.
    rewrite Hp in Hk. destruct Hk as (_ & _ & Hc & _).
    eapply prefix_lookup_Some; [|exact Hc]. simpl.
    by apply list_lookup_middle.
  - intros H. apply list_elem_of_filter in H as [H _]. by apply H.
Qed.

(** ** Failing callbacks *)

Section Failures.
Variable app : nat -> list value -> prog.

Lemma forEach_fails n ls1 l ls2 e :
  Forall (fun x => inert app n x []) ls1 ->
  throws app n l [] e ->
  forall w, exists h' lg,
    heap w ⊆ h' /\
    forEach (ls1 ++ l :: ls2) (fun listener => call app n listener []) w
      = Fail e (set_log (log w ++ lg) (set_heap h' w)) /\
    invocations lg = map (fun x => (x, [])) (ls1 ++ [l]).
Proof.
  intros Hls Hl. induction Hls as [|x ls1 Hx _ IH]; intros w.
  - destruct (Hl w) as (h' & Hh & Hc).
    exists h', [Invoked l []]. split; [done|]. split; [|done].
    simpl. unfold bind. by rewrite Hc.
  - destruct (Hx w) as (v & h1 & Hh1 & Hc).
    destruct (IH (set_log (log w ++ [Invoked x []; Returned x v])
                          (set_heap h1 w))) as (h2 & lg & Hh2 & Hf & Hi).
    exists h2, ([Invoked x []; Returned x v] ++ lg).
    split; [by etransitivity|]. split.
    + change ((x :: ls1) ++ l :: ls2) with (x :: (ls1 ++ l :: ls2)).
      cbn [forEach]. unfold bind at 1. rewrite Hc, Hf.
      by rewrite set_log_heap_compose.
    + rewrite invocations_app, Hi. done.
Qed.

(** X3. A listener that throws ends the dispatch with its error, after the
    state has been replaced: the new state stays, the listeners before it
    have been entered in order, those after it are not entered. *)
Theorem dispatch_listener_failure n w la s' w1 ls1 l ls2 e :
  obj_get (obj_at (heap w) la) "type" <> VUndef ->
  call app n (rootReducer w) [currentState w; VObj la] w = Done s' w1 ->
  listeners w1 = ls1 ++ l :: ls2 ->
  Forall (fun x => inert app n x []) ls1 ->
  throws app n l [] e ->
  exists w',
    dispatch (call app n) (VObj la) w = Fail e w' /\
    currentState w' = s' /\
    listeners w' = ls1 ++ l :: ls2 /\
    invocations (log w')
      = invocations (log w1) ++ map (fun x => (x, [])) (ls1 ++ [l]).
Proof.
  intros Hty Hred Hls Hin Hl.
  destruct (forEach_fails n ls1 l ls2 e Hin Hl (set_currentState s' w1))
    as (h' & lg & _ & Hf & Hi).
  eexists. split.
  - rewrite dispatch_typed by (by apply own_type_defined).
    unfold bind at 1. rewrite Hred. unfold bind at 1, modify at 1.
    unfold bind at 1, get at 1. unfold bind at 1.
    change (listeners (set_currentState s' w1)) with (listeners w1).
    by rewrite Hls, Hf.
  - simpl. repeat split; try done. by rewrite invocations_app, Hi.
Qed.

Lemma dispatch_reducer_fails (c : value -> list value -> M value) w la e w1 :
  obj_get (obj_at (heap w) la) "type" <> VUndef ->
  c (rootReducer w) [currentState w; VObj la] w = Fail e w1 ->
  dispatch c (VObj la) w = Fail e w1.
Proof.
  intros Hty Hc. rewrite dispatch_typed by (by apply own_type_defined).
  unfold bind at 1. by rewrite Hc.
Qed.

(** X4. When the reducer throws on an action, the plain dispatch of that
    action ends with the reducer's error in the very world in which the
    reducer threw: the state is not assigned and no listener is entered.
    So when the reducer has only allocated and logged before it threw, the
    state and the listeners are those of before the dispatch. *)
Theorem dispatch_reducer_failure n w la e w1 :
  obj_get (obj_at (heap w) la) "type" <> VUndef ->
  call app n (rootReducer w) [currentState w; VObj la] w = Fail e w1 ->
  dispatch (call app n) (VObj la) w = Fail e w1 /\
  forall h' lg,
    w1 = set_log (log w ++ lg) (set_heap h' w) ->
    currentState w1 = currentState w /\
    listeners w1 = listeners w /\
    invocations (log w1) = invocations (log w) ++ invocations lg.
Proof.
  intros Hty Hc. split; [by apply dispatch_reducer_fails|].
  intros h' lg ->. simpl. by rewrite invocations_app.
Qed.
End Failures.

Lemma demo_ui_faulty_throws n args :
  throws demo_ui (S n) faulty args (Thrown (VStr "failed")).
Proof. intros w. exists (heap w). split; [done|]. by destruct w. Qed.

(** X1 on the counter store: an increment, then a subscription. *)
Lemma store_keeps_configuration_witness :
  exists v w',
    exec (call demo 3)
      (Call (VFun FDispatch) [VObj 0] (fun _ =>
       Call (VFun FSubscribe) [nameReducer] Ret)) (demo_store VUndef)
    = Done v w' /\
    rootReducer w' = rootReducer (demo_store VUndef) /\
    middleware w' = middleware (demo_store VUndef) /\
    (forall id c, closures (demo_store VUndef) !! id = Some c ->
       closures w' !! id = Some c) /\
    (forall l o, heap (demo_store VUndef) !! l = Some o ->
       heap w' !! l = Some o) /\
    Object_prototype w' = Object_prototype (demo_store VUndef) /\
    (forall l, l ∈ used (demo_store VUndef) ->
       shape_at w' l = shape_at (demo_store VUndef) l).
Proof.
  eexists _, _. split; [vm_compute; reflexivity|].
  apply (store_keeps_configuration demo 3
           (Call (VFun FDispatch) [VObj 0] (fun _ =>
            Call (VFun FSubscribe) [nameReducer] Ret))
           (demo_store VUndef)).
  left. eexists. vm_compute. reflexivity.
Defined.

(** X2 on the counter store: subscribe, dispatch, then unsubscribe. *)
Lemma unsubscribe_after_anything_witness :
  exists v w2 unsubscribe w1,
    subscribe nameReducer (demo_store VUndef) = Done unsubscribe w1 /\
    exec (call demo 3) (Call (VFun FDispatch) [VObj 0] Ret) w1 = Done v w2 /\
    call demo 1 unsubscribe [] w2
      = Done VUndef
          (set_listeners
             (filter (fun item => item <> nameReducer) (listeners w2)) w2) /\
    nameReducer ∉ filter (fun item => item <> nameReducer) (listeners w2).
Proof.
  eexists _, _.
  apply (unsubscribe_after_anything demo 3 0 (demo_store VUndef) nameReducer
           (Call (VFun FDispatch) [VObj 0] Ret)).
  vm_compute. reflexivity.
Defined.

(** X3 on the counter store with the faulty listener in the middle. *)
Lemma dispatch_listener_failure_witness :
  exists w',
    dispatch (call demo_ui 2) (VObj 0) demo_faulty
      = Fail (Thrown (VStr "failed")) w' /\
    currentState w' = VNum 1 /\
    listeners w' = [silentListener] ++ faulty :: [readingListener] /\
    invocations (log w')
      = invocations (log (set_log demo_reduction demo_faulty))
          ++ map (fun x => (x, [])) ([silentListener] ++ [faulty]).
Proof.
  apply (dispatch_listener_failure demo_ui 2 demo_faulty 0 (VNum 1)
           (set_log demo_reduction demo_faulty)
           [silentListener] faulty [readingListener]).
  - vm_compute. discriminate.
  - vm_compute. reflexivity.
  - reflexivity.
  - repeat constructor. apply demo_ui_silent_inert.
  - apply demo_ui_faulty_throws.
Defined.

(** The store of the strict reducer is one that [createStore] builds. *)
Example demo_strict_built :
  exists w,
    createStore demo_ui 2 strictReducer (VNum 0) VUndef empty_world
      = Done (VObj 1002) w /\
    exec (call demo_ui 2)
      (Call (VFun FSubscribe) [silentListener] (fun _ =>
       NewObj [("type", VStr "FAIL")] Ret)) w
      = Done (VObj 1003) demo_strict.
Proof. eexists. split; vm_compute; reflexivity. Qed.

(** X4 on the store of the strict reducer and the action it rejects. *)
Lemma dispatch_reducer_failure_witness :
  dispatch (call demo_ui 2) (VObj 1003) demo_strict
    = Fail (Thrown (VStr "failed"))
        (set_log (log demo_strict
                  ++ [Invoked strictReducer [VNum 0; VObj 1003]])
           (set_heap (heap demo_strict) demo_strict)) /\
  forall h' lg,
    set_log (log demo_strict ++ [Invoked strictReducer [VNum 0; VObj 1003]])
      (set_heap (heap demo_strict) demo_strict)
    = set_log (log demo_strict ++ lg) (set_heap h' demo_strict) ->
    currentState
      (set_log (log demo_strict
                ++ [Invoked strictReducer [VNum 0; VObj 1003]])
         (set_heap (heap demo_strict) demo_strict))
    = currentState demo_strict /\
    listeners
      (set_log (log demo_strict
                ++ [Invoked strictReducer [VNum 0; VObj 1003]])
         (set_heap (heap demo_strict) demo_strict))
    = listeners demo_strict /\
    invocations
      (log (set_log (log demo_strict
                     ++ [Invoked strictReducer [VNum 0; VObj 1003]])
              (set_heap (heap demo_strict) demo_strict)))
    = invocations (log demo_strict) ++ invocations lg.
Proof.
  apply (dispatch_reducer_failure demo_ui 2 demo_strict 1003).
  - vm_compute. discriminate.
  - vm_compute. reflexivity.
Defined.

(** The strict reducer at work: the rejected action leaves the state at 0
    and the listener alone; an increment it does not know leaves the state
    as well and notifies the listener. *)
Example strict_reducer_runs :
  exists w,
    dispatch (call demo_ui 2) (VObj 1003) demo_strict
      = Fail (Thrown (VStr "failed")) w /\
    currentState w = VNum 0 /\
    listeners w = [silentListener] /\
    entered silentListener (log w) = 0 /\
    exists w',
      dispatch (call demo_ui 2) (VObj 1001) w = Done (VObj 1001) w' /\
      entered silentListener (log w') = 1.
Proof.
  eexists. split; [vm_compute; reflexivity|].
  split; [vm_compute; reflexivity|]. split; [vm_compute; reflexivity|].
  split; [vm_compute; reflexivity|].
  eexists. split; vm_compute; reflexivity.
Qed.

(** ** More on subscriptions *)

Lemma filter_ne_absent (l : value) (ls : list value) :
  l ∉ ls -> filter (fun item => item <> l) ls = ls.
Proof.
  induction ls as [|x ls IH]; intros Hn; [done|].
  apply not_elem_of_cons in Hn as [Hx Hn].
  rewrite filter_cons, decide_True by done. by rewrite IH.
Qed.

Lemma filter_ne_snoc (l : value) (ls : list value) :
  filter (fun item => item <> l) (ls ++ [l])
  = filter (fun item => item <> l) ls.
Proof.
  rewrite filter_app, filter_cons, decide_False by (by intros H; apply H).
  by rewrite filter_nil, app_nil_r.
Qed.

Lemma occurrences_snoc f ls : occurrences f (ls ++ [f]) = S (occurrences f ls).
Proof.
  rewrite occurrences_app. unfold occurrences at 2.
  rewrite filter_cons, decide_True by done. simpl. lia.
Qed.

Lemma occurrences_filter_ne f l ls :
  f <> l ->
  occurrences f (filter (fun item => item <> l) ls) = occurrences f ls.
Proof.
  intros Hne. unfold occurrences. induction ls as [|x ls IH]; [done|].
  rewrite (filter_cons (fun item => item <> l)).
  destruct (decide (x <> l)) as [Hx|Hx].
  - rewrite !filter_cons. destruct (decide (x = f)); simpl; by rewrite IH.
  - rewrite IH, filter_cons. rewrite decide_False; [done|].
    intros ->. by apply Hx.
Qed.

Section Handles.
Variable app : nat -> list value -> prog.

(** X5. Subscribing a listener that was not subscribed and calling the
    returned function at once gives back the listener list, the state, the
    heap and the log of before. *)
Theorem subscribe_round_trip m w l :
  l ∉ listeners w ->
  exists unsubscribe w1 w2,
    subscribe l w = Done unsubscribe w1 /\
    call app (S m) unsubscribe [] w1 = Done VUndef w2 /\
    listeners w2 = listeners w /\
    currentState w2 = currentState w /\
    heap w2 = heap w /\
    log w2 = log w.
Proof.
  intros Hn. eexists _, _, _. split; [apply subscribe_eq|]. split.
  - apply call_unSubscribe. simpl. by apply list_lookup_middle.
  - simpl. by rewrite filter_ne_snoc, filter_ne_absent.
Qed.

(** X6. Two subscriptions of one listener give two different functions,
    but either of them removes both subscriptions: after calling the first
    the listener is not listed any more, the list is the one of before
    without that listener, and calling the second changes nothing. *)
Theorem unsubscribe_cancels_all_subscriptions m w l :
  exists u1 w1 u2 w2 w3,
    subscribe l w = Done u1 w1 /\
    subscribe l w1 = Done u2 w2 /\
    u1 <> u2 /\
    occurrences l (listeners w2) = 2 + occurrences l (listeners w) /\
    call app (S m) u1 [] w2 = Done VUndef w3 /\
    listeners w3 = filter (fun item => item <> l) (listeners w) /\
    occurrences l (listeners w3) = 0 /\
    call app (S m) u2 [] w3 = Done VUndef w3.
Proof.
  set (w1 := set_closures (closures w ++ [UnSubscribe l])
               (set_listeners (listeners w ++ [l]) w)).
  set (w2 := set_closures (closures w1 ++ [UnSubscribe l])
               (set_listeners (listeners w1 ++ [l]) w1)).
  set (w3 := set_listeners
               (filter (fun item => item <> l) (listeners w2)) w2).
  exists (VFun (FClosure (length (closures w)))), w1,
         (VFun (FClosure (length (closures w1)))), w2, w3.
  assert (closures w3 !! length (closures w) = Some (UnSubscribe l)) as H1.
  { unfold w3, w2, w1. simpl. rewrite <- app_assoc.
    by apply list_lookup_middle. }
  assert (closures w3 !! length (closures w1) = Some (UnSubscribe l)) as H2.
  { unfold w3, w2. simpl. by apply list_lookup_middle. }
  assert (listeners w3 = filter (fun item => item <> l) (listeners w)) as H3.
  { unfold w3, w2, w1. simpl. by rewrite !filter_ne_snoc. }
  split; [apply subscribe_eq|]. split; [apply subscribe_eq|]. split.
  { unfold w1. simpl. rewrite length_app. simpl. intros [= H]. lia. }
  split.
  { unfold w2, w1. simpl. by rewrite !occurrences_snoc. }
  split; [by apply call_unSubscribe|]. split; [exact H3|].
  split; [rewrite H3; apply occurrences_removed|].
  rewrite (call_unSubscribe app m _ l w3 H2).
  unfold w3 at 1 3. simpl. by rewrite filter_ne_idemp.
Qed.

(** X7. Unsubscribing one listener leaves the others as they are: the new
    list is the old one with the entries of that listener taken out, the
    others in the same order and as often as before; the state is not
    touched. *)
Theorem unsubscribe_spares_the_others m w id l :
  closures w !! id = Some (UnSubscribe l) ->
  exists w',
    call app (S m) (VFun (FClosure id)) [] w = Done VUndef w' /\
    listeners w' `sublist_of` listeners w /\
    (forall g, g <> l ->
       occurrences g (listeners w') = occurrences g (listeners w)) /\
    (forall g, g ∈ listeners w' <-> g ∈ listeners w /\ g <> l) /\
    currentState w' = currentState w.
Proof.
  intros Hc. eexists. split; [by apply call_unSubscribe|]. simpl.
  split; [apply sublist_filter|]. split.
  - intros g Hg. by apply occurrences_filter_ne.
  - split; [|done]. intros g. rewrite list_elem_of_filter. tauto.
Qed.
End Handles.

(** X5 on the counter store. *)
Lemma subscribe_round_trip_witness :
  exists unsubscribe w1 w2,
    subscribe nameReducer (demo_store VUndef) = Done unsubscribe w1 /\
    call demo 1 unsubscribe [] w1 = Done VUndef w2 /\
    listeners w2 = listeners (demo_store VUndef) /\
    currentState w2 = currentState (demo_store VUndef) /\
    heap w2 = heap (demo_store VUndef) /\
    log w2 = log (demo_store VUndef).
Proof.
  apply (subscribe_round_trip demo 0 (demo_store VUndef) nameReducer).
  intros H. repeat (apply elem_of_cons in H as [H|H]; [discriminate|]).
  by apply elem_of_nil in H.
Defined.

(** X7 on the counter store after [subscribe(nameReducer)]. *)
Lemma unsubscribe_spares_the_others_witness :
  exists w',
    call demo 1 (VFun (FClosure 0)) [] demo_subscribed = Done VUndef w' /\
    listeners w' `sublist_of` listeners demo_subscribed /\
    (forall g, g <> nameReducer ->
       occurrences g (listeners w')
       = occurrences g (listeners demo_subscribed)) /\
    (forall g, g ∈ listeners w'
       <-> g ∈ listeners demo_subscribed /\ g <> nameReducer) /\
    currentState w' = currentState demo_subscribed.
Proof.
  apply (unsubscribe_spares_the_others demo 0 demo_subscribed 0 nameReducer).
  reflexivity.
Defined.

(** ** Sequences of dispatches *)

Lemma entered_app f lg1 lg2 :
  entered f (lg1 ++ lg2) = entered f lg1 + entered f lg2.
Proof.
  unfold entered. by rewrite invocations_app, filter_app, length_app.
Qed.

Lemma obj_at_allocated (h : gmap loc obj) la :
  obj_get (obj_at h la) "type" <> VUndef -> is_Some (h !! la).
Proof.
  unfold obj_at. destruct (h !! la); [by eexists | by intros H].
Qed.

Lemma obj_at_stable (h h' : gmap loc obj) la :
  h ⊆ h' -> obj_get (obj_at h la) "type" <> VUndef ->
  obj_at h' la = obj_at h la.
Proof.
  intros Hsub Hty. destruct (obj_at_allocated h la Hty) as [o Ho].
  unfold obj_at. by rewrite Ho, (lookup_weaken _ _ _ _ Ho Hsub).
Qed.

Lemma foldl_actions_stable (red : value -> obj -> value)
    (h h' : gmap loc obj) las :
  h ⊆ h' ->
  Forall (fun la => obj_get (obj_at h la) "type" <> VUndef) las ->
  forall s,
    foldl (fun s la => red s (obj_at h' la)) s las
    = foldl (fun s la => red s (obj_at h la)) s las.
Proof.
  intros Hsub. induction 1 as [|la las Hla _ IH]; intros s; [done|].
  cbn [foldl]. by rewrite (obj_at_stable _ _ _ Hsub Hla).
Qed.

Section Sequences.
Variable app : nat -> list value -> prog.

(** X8. Dispatching a list of well-formed actions one after the other, with
    a reducer that is a function of state and action and listeners that
    keep to themselves, leaves as state the left fold of the reducer over
    the actions, starting from the state of before; every listener is
    entered once per action and subscription. *)
Theorem dispatch_sequence n red las :
  forall w,
    computes app n (rootReducer w) red ->
    Forall (fun l => inert app n l []) (listeners w) ->
    Forall (fun la => obj_get (obj_at (heap w) la) "type" <> VUndef) las ->
    exists w' lg,
      forEach (VObj <$> las) (dispatch (call app n)) w = Done tt w' /\
      currentState w'
        = foldl (fun s la => red s (obj_at (heap w) la)) (currentState w) las /\
      listeners w' = listeners w /\
      log w' = log w ++ lg /\
      forall f, f <> rootReducer w ->
        entered f lg = length las * occurrences f (listeners w).
Proof.
  induction las as [|la las IH]; intros w Hred Hls Hty.
  - exists w, []. split; [done|]. split; [done|]. split; [done|].
    split; [by rewrite app_nil_r | done].
  - apply Forall_cons in Hty as [Hla Hty].
    destruct (Hred w (currentState w) la Hla) as (h1 & Hh1 & Hcall).
    set (s' := red (currentState w) (obj_at (heap w) la)) in *.
    set (ev := [Invoked (rootReducer w) [currentState w; VObj la];
                Returned (rootReducer w) s']) in *.
    set (w1 := set_log (log w ++ ev) (set_heap h1 w)) in *.
    destruct (dispatch_plain app n w la s' w1 Hla Hcall Hls)
      as (h2 & lg1 & Hh2 & Hd & Hi).
    set (w2 := set_log (log w1 ++ lg1)
                 (set_heap h2 (set_currentState s' w1))) in *.
    assert (heap w ⊆ heap w2) as Hsub by (by etransitivity).
    destruct (IH w2) as (w' & lg & Hf & Hst & Hl & Hlog & Hent).
    { exact Hred. }
    { exact Hls. }
    { eapply Forall_impl; [exact Hty|]. intros la' H'. simpl in H'.
      by rewrite (obj_at_stable _ _ _ Hsub H'). }
    exists w', (ev ++ lg1 ++ lg). split.
    { rewrite fmap_cons. cbn [forEach]. unfold bind at 1.
      by rewrite Hd. }
    split.
    { rewrite Hst. cbn [foldl]. change (currentState w2) with s'.
      by apply foldl_actions_stable. }
    split; [exact Hl|]. split.
    { rewrite Hlog. unfold w2, w1. simpl. by rewrite <- !app_assoc. }
    intros f Hf'. rewrite !entered_app, (Hent f Hf').
    rewrite (entered_notified f (listeners w) lg1 Hi).
    change (listeners w2) with (listeners w).
    assert (entered f ev = 0) as ->.
    { unfold entered, ev. simpl. rewrite filter_cons, decide_False; [done|].
      simpl. congruence. }
    simpl. lia.
Qed.
End Sequences.

Lemma demo_counter_exec n s la w :
  obj_get (obj_at (heap w) la) "type" <> VUndef ->
  exec (call demo n) (demo 0 [s; VObj la]) w
  = Done (counter_step s (obj_at (heap w) la)) w.
Proof.
  intros Hty. cbn [demo exec]. erewrite bind_Done; [|apply read_object].
  change (arg 1 [s; VObj la]) with (VObj la).
  rewrite (prop_own_defined w la "type" Hty).
  unfold counter_step, arg. simpl.
  destruct s; simpl; try case_decide; reflexivity.
Qed.

Lemma demo_counter_computes n :
  computes demo (S n) counterReducer counter_step.
Proof.
  intros w s la Hty. exists (heap w). split; [done|].
  cbn [call counterReducer]. erewrite bind_Done; [|reflexivity].
  erewrite bind_Done; cycle 1.
  { apply (demo_counter_exec n s la (record _ w)). exact Hty. }
  erewrite bind_Done; [|reflexivity].
  unfold ret, record. destruct w; simpl.
  unfold set_log, set_heap; simpl. by rewrite <- app_assoc.
Qed.

(** X8 on the counter store: three increments. *)
Lemma dispatch_sequence_witness :
  exists w' lg,
    forEach (VObj <$> [0; 0; 0]) (dispatch (call demo 2)) (demo_store VUndef)
      = Done tt w' /\
    currentState w'
      = foldl (fun s la =>
                 counter_step s (obj_at (heap (demo_store VUndef)) la))
          (currentState (demo_store VUndef)) [0; 0; 0] /\
    listeners w' = listeners (demo_store VUndef) /\
    log w' = log (demo_store VUndef) ++ lg /\
    forall f, f <> rootReducer (demo_store VUndef) ->
      entered f lg
        = length [0; 0; 0] * occurrences f (listeners (demo_store VUndef)).
Proof.
  apply (dispatch_sequence demo 2 counter_step [0; 0; 0] (demo_store VUndef)).
  - apply demo_counter_computes.
  - apply demo_listeners_inert.
  - repeat constructor; vm_compute; discriminate.
Defined.

(** ** Edges of [combineReducers] and [createStore] *)

Lemma createStore_unfold app n reducer init mw w0 :
  createStore app n reducer init mw w0
  = bind (dispatch (call app n) (VObj (fresh_loc w0)))
      (fun _ => new_object [("dispatch", VFun FDispatch);
                            ("subscribe", VFun FSubscribe);
                            ("getState", VFun FGetState)])
      (World reducer mw init [] (closures w0)
         (<[fresh_loc w0 := [("type", VStr "@INIT")]]> (heap w0))
         (log w0) (shapes w0) (Object_prototype w0)).
Proof. reflexivity. Qed.

Section Edges.
Variable app : nat -> list value -> prog.

Lemma mainReducer_without_state n w lr k r rs state action :
  heap w !! lr = Some ((k, r) :: rs) ->
  state = VUndef \/ state = VNull ->
  mainReducer (call app n) lr state action w
    = Fail TypeError (set_heap (<[fresh_loc w := []]> (heap w)) w).
Proof.
  intros Hlr Hst. unfold mainReducer.
  erewrite bind_Done; [|reflexivity]. cbv beta.
  erewrite bind_Done; [|reflexivity]. cbv beta.
  erewrite bind_Done; [|reflexivity]. cbv beta.
  set (l := fresh_loc w).
  assert (heap w !! l = None) as Hl by apply fresh_loc_heap.
  assert (l <> lr) as Hne by (intros ->; congruence).
  set (w1 := set_heap (<[l := []]> (heap w)) w).
  assert (obj_at (heap w1) lr = (k, r) :: rs) as Hat
    by (unfold obj_at; simpl; by rewrite lookup_insert_ne, Hlr).
  rewrite Hat. change (obj_keys ((k, r) :: rs)) with (k :: obj_keys rs).
  cbn [forEach]. unfold bind at 1. unfold bind at 1. unfold bind at 1.
  rewrite (read_own w1 lr k r)
    by (rewrite Hat; simpl; by rewrite String.eqb_refl).
  unfold bind at 1. unfold read at 1.
  by destruct Hst as [-> | ->].
Qed.

(** X9. The reducer built by [combineReducers] over at least one slice
    fails with a [TypeError] on the state [undefined] or [null], before any
    slice reducer is entered; so does the construction of a store over it
    when no initial state is given. *)
Theorem combined_reducer_needs_a_state n w id lr k r rs state action mw :
  closures w !! id = Some (MainReducer lr) ->
  heap w !! lr = Some ((k, r) :: rs) ->
  state = VUndef \/ state = VNull ->
  (exists w',
     call app (S n) (VFun (FClosure id)) [state; action] w
       = Fail TypeError w' /\
     log w' = log w /\ currentState w' = currentState w) /\
  (exists w',
     createStore app (S n) (VFun (FClosure id)) state mw w
       = Fail TypeError w' /\
     log w' = log w /\ currentState w' = state).
Proof.
  intros Hc Hlr Hst. split.
  - exists (set_heap (<[fresh_loc w := []]> (heap w)) w).
    split; [|done].
    rewrite (call_mainReducer app n id lr) by done.
    change (arg 0 [state; action]) with state.
    by apply (mainReducer_without_state n w lr k r rs).
  - set (la := fresh_loc w).
    set (w1 := World (VFun (FClosure id)) mw state [] (closures w)
                 (<[la := [("type", VStr "@INIT")]]> (heap w)) (log w)
                 (shapes w) (Object_prototype w)).
    assert (heap w !! la = None) as Hla by apply fresh_loc_heap.
    assert (la <> lr) as Hne by (intros ->; congruence).
    assert (heap w1 !! lr = Some ((k, r) :: rs)) as Hlr1
      by (simpl; by rewrite lookup_insert_ne).
    exists (set_heap (<[fresh_loc w1 := []]> (heap w1)) w1). split.
    + rewrite createStore_unfold. fold la. fold w1. unfold bind.
      rewrite (dispatch_reducer_fails (call app (S n)) w1 la TypeError
                 (set_heap (<[fresh_loc w1 := []]> (heap w1)) w1));
        [done| |].
      * unfold obj_at. simpl. by rewrite lookup_insert_eq.
      * change (rootReducer w1) with (VFun (FClosure id)).
        rewrite (call_mainReducer app n id lr) by done.
        change (arg 0 [currentState w1; VObj la]) with state.
        by apply (mainReducer_without_state n w1 lr k r rs).
    + done.
Qed.

(** X10. Over no slice at all the combined reducer never looks at the
    state: it returns a new empty object for every state, [undefined]
    included, and enters no application code. *)
Theorem combined_reducer_of_nothing n w id lr state action :
  closures w !! id = Some (MainReducer lr) ->
  heap w !! lr = Some [] ->
  exists l w',
    call app (S n) (VFun (FClosure id)) [state; action] w
      = Done (VObj l) w' /\
    heap w !! l = None /\
    heap w' = <[l := []]> (heap w) /\
    log w' = log w /\
    currentState w' = currentState w.
Proof.
  intros Hc Hlr.
  set (l := fresh_loc w).
  assert (heap w !! l = None) as Hl by apply fresh_loc_heap.
  assert (l <> lr) as Hne by (intros ->; congruence).
  exists l, (set_heap (<[l := []]> (heap w)) w). split.
  - rewrite (call_mainReducer app n id lr) by done. unfold mainReducer.
    erewrite bind_Done; [|reflexivity]. cbv beta.
    erewrite bind_Done; [|reflexivity]. cbv beta.
    erewrite bind_Done; [|reflexivity]. cbv beta. fold l.
    replace (obj_at (heap (set_heap (<[l := []]> (heap w)) w)) lr)
      with (@nil (string * value))
      by (unfold obj_at; simpl; by rewrite lookup_insert_ne, Hlr).
    reflexivity.
  - done.
Qed.

(** X11. [createStore] does not look at its reducer before calling it: with
    anything but a function the construction fails with a [TypeError], at
    the initial dispatch. *)
Theorem createStore_without_reducer n reducer init mw w0 :
  (forall f, reducer <> VFun f) ->
  exists w',
    createStore app (S n) reducer init mw w0 = Fail TypeError w' /\
    currentState w' = init /\
    log w' = log w0.
Proof.
  intros Hnf.
  set (la := fresh_loc w0).
  set (w1 := World reducer mw init [] (closures w0)
               (<[la := [("type", VStr "@INIT")]]> (heap w0)) (log w0)
               (shapes w0) (Object_prototype w0)).
  exists w1. split; [|done].
  rewrite createStore_unfold. fold la. fold w1. unfold bind.
  rewrite (dispatch_reducer_fails (call app (S n)) w1 la TypeError w1);
    [done| |].
  - unfold obj_at. simpl. by rewrite lookup_insert_eq.
  - change (rootReducer w1) with reducer.
    destruct reducer as [| | | | | |f]; try reflexivity.
    by destruct (Hnf f).
Qed.
End Edges.

(** X9 on [{counter, name}]. *)
Lemma combined_reducer_needs_a_state_witness :
  (exists w',
     call demo 1 (VFun (FClosure 0)) [VUndef; VObj 2] demo_slices
       = Fail TypeError w' /\
     log w' = log demo_slices /\
     currentState w' = currentState demo_slices) /\
  (exists w',
     createStore demo 1 (VFun (FClosure 0)) VUndef VUndef demo_slices
       = Fail TypeError w' /\
     log w' = log demo_slices /\ currentState w' = VUndef).
Proof.
  apply (combined_reducer_needs_a_state demo 0 demo_slices 0 0
           "counter" counterReducer [("name", nameReducer)]
           VUndef (VObj 2) VUndef).
  - reflexivity.
  - vm_compute. reflexivity.
  - by left.
Defined.

(** X10 on the closure over the empty object. *)
Lemma combined_reducer_of_nothing_witness :
  exists l w',
    call demo 1 (VFun (FClosure 0)) [VUndef; VObj 2] demo_no_slices
      = Done (VObj l) w' /\
    heap demo_no_slices !! l = None /\
    heap w' = <[l := []]> (heap demo_no_slices) /\
    log w' = log demo_no_slices /\
    currentState w' = currentState demo_no_slices.
Proof.
  apply (combined_reducer_of_nothing demo 0 demo_no_slices 0 3
           VUndef (VObj 2)).
  - reflexivity.
  - vm_compute. reflexivity.
Defined.

(** X11 with [undefined] for reducer. *)
Lemma createStore_without_reducer_witness :
  exists w',
    createStore demo 1 VUndef (VNum 0) VUndef empty_world
      = Fail TypeError w' /\
    currentState w' = VNum 0 /\
    log w' = log empty_world.
Proof.
  apply (createStore_without_reducer demo 0 VUndef (VNum 0) VUndef
           empty_world).
  intros f. discriminate.
Defined.

(** ** The middleware, once more *)

(** X12. Two middleware values of the same truthiness give the same store:
    in particular [undefined], [null], [false], [0] and the empty string
    all mean that there is no middleware. *)
Theorem middleware_by_truthiness app n reducer init m1 m2 :
  truthy m1 = truthy m2 ->
  (forall w0,
     createStore app n reducer init m2 w0
       = with_middleware m2 (createStore app n reducer init m1 w0)) /\
  (forall w p, middleware w = m1 ->
     exec (call app n) p (set_middleware m2 w)
       = with_middleware m2 (exec (call app n) p w)).
Proof.
  intros Ht. split.
  - intros w0. rewrite !createStore_unfold.
    assert (indifferent m1 m2
      (bind (dispatch (call app n) (VObj (fresh_loc w0)))
         (fun _ => new_object [("dispatch", VFun FDispatch);
                               ("subscribe", VFun FSubscribe);
                               ("getState", VFun FGetState)]))) as Hok.
    { apply ok_bind; [|intros _; apply ok_new_object].
      apply ok_dispatch; [done|]. by apply ok_call. }
    by apply (Hok (World reducer m1 init [] (closures w0) _ (log w0)
                     (shapes w0) (Object_prototype w0))).
  - intros w p Hw.
    by apply (ok_exec m1 m2 (call app n) (ok_call m1 m2 Ht app n) p w Hw).
Qed.

(** X12 with [null] and [0]: a function action is rejected in both. *)
Lemma middleware_by_truthiness_witness :
  (forall w0,
     createStore demo 3 counterReducer (VNum 0) (VNum 0) w0
       = with_middleware (VNum 0)
           (createStore demo 3 counterReducer (VNum 0) VNull w0)) /\
  (forall w p, middleware w = VNull ->
     exec (call demo 3) p (set_middleware (VNum 0) w)
       = with_middleware (VNum 0) (exec (call demo 3) p w)).
Proof.
  apply (middleware_by_truthiness demo 3 counterReducer (VNum 0)
           VNull (VNum 0)).
  reflexivity.
Defined.

(** * Further properties of [shallowEqual] *)

Lemma keys_test_same_props a b :
  NoDup (obj_keys a) -> NoDup (obj_keys b) ->
  (length (obj_keys a) = length (obj_keys b) /\
   forall key, key ∈ obj_keys a ->
     key ∈ obj_keys b /\ obj_get a key = obj_get b key)
  <-> same_props a b.
Proof.
  intros Ha Hb. split.
  - intros [Hlen Hall].
    assert (obj_keys a ≡ₚ obj_keys b) as Hperm.
    { apply submseteq_length_Permutation; [|lia].
      apply NoDup_submseteq; [done|]. intros key Hin. by apply Hall. }
    intros key. destruct (decide (key ∈ obj_keys a)) as [Hin|Hin].
    + destruct (Hall key Hin) as [Hinb Hval].
      apply obj_lookup_is_Some in Hin as [va Hva].
      apply obj_lookup_is_Some in Hinb as [vb Hvb].
      unfold obj_get in Hval. rewrite Hva, Hvb in *. simpl in Hval.
      congruence.
    + assert (key ∉ obj_keys b) as Hinb by (by rewrite <- Hperm).
      apply obj_lookup_None in Hin, Hinb. congruence.
  - intros Hsame.
    assert (forall key, key ∈ obj_keys a <-> key ∈ obj_keys b) as Hmem.
    { intros key. by rewrite <- !obj_lookup_is_Some, Hsame. }
    split.
    + apply Permutation_length. by apply NoDup_Permutation.
    + intros key Hin. split; [by apply Hmem|].
      unfold obj_get. by rewrite Hsame.
Qed.

Lemma different_props a b :
  ~ same_props a b -> exists key, obj_lookup key a <> obj_lookup key b.
Proof.
  intros Hn.
  destruct (decide (Forall (fun key => obj_lookup key a = obj_lookup key b)
                      (obj_keys a ++ obj_keys b))) as [Hall|Hex].
  - destruct Hn. intros key.
    destruct (decide (key ∈ obj_keys a ++ obj_keys b)) as [Hin|Hin].
    + by apply (proj1 (Forall_forall _ _) Hall).
    + apply not_elem_of_app in Hin as [Ha Hb].
      apply obj_lookup_None in Ha, Hb. congruence.
  - apply not_Forall_Exists in Hex; [|intros key; apply _].
    apply Exists_exists in Hex as (key & _ & Hk). by exists key.
Qed.

Lemma own_prop_plain w l key :
  hidden (shape_at w l) = [] ->
  own_prop w l key = obj_lookup key (obj_at (heap w) l).
Proof.
  intros H. unfold own_prop, own_in.
  change (shape_in (shapes w) (Object_prototype w) l) with (shape_at w l).
  rewrite H. by destruct (obj_lookup key (obj_at (heap w) l)).
Qed.

(** On an object without hidden properties the test of [shallowEqual] on
    a key is a test on the enumerable properties. *)
Lemma own_key_test w la lb key :
  hidden (shape_at w lb) = [] ->
  key ∈ obj_keys (obj_at (heap w) la) ->
  is_Some (own_prop w lb key) /\ prop w (VObj la) key = prop w (VObj lb) key
  <-> key ∈ obj_keys (obj_at (heap w) lb) /\
      obj_get (obj_at (heap w) la) key = obj_get (obj_at (heap w) lb) key.
Proof.
  intros Hb Hin. rewrite (own_prop_plain w lb key Hb), obj_lookup_is_Some.
  rewrite (prop_enumerable w la key Hin).
  split; intros [Hk Hv]; (split; [done|]);
    by rewrite (prop_enumerable w lb key Hk) in *.
Qed.

Lemma shallowEqual_iff_same_props w la lb :
  NoDup (obj_keys (obj_at (heap w) la)) ->
  NoDup (obj_keys (obj_at (heap w) lb)) ->
  hidden (shape_at w lb) = [] ->
  shallowEqual w (VObj la) (VObj lb) = true
  <-> same_props (obj_at (heap w) la) (obj_at (heap w) lb).
Proof.
  intros Ha Hb Hplain. destruct (decide (la = lb)) as [->|Hne].
  - rewrite shallowEqual_same. by split.
  - rewrite shallowEqual_objects_true by done.
    rewrite <- keys_test_same_props by done.
    split; intros [Hlen Hall]; (split; [done|]); intros key Hin;
      by apply (own_key_test w la lb key Hplain Hin), Hall.
Qed.

(** X13. On two objects, the second without own properties that are not
    enumerable, [shallowEqual] decides whether they have the same
    enumerable own properties: the same keys, in any order, each with an
    identical value.  A property added, removed or given another value is
    seen. *)
Theorem shallowEqual_decides_same_props w la lb :
  NoDup (obj_keys (obj_at (heap w) la)) ->
  NoDup (obj_keys (obj_at (heap w) lb)) ->
  hidden (shape_at w lb) = [] ->
  (shallowEqual w (VObj la) (VObj lb) = true
   <-> same_props (obj_at (heap w) la) (obj_at (heap w) lb)) /\
  (shallowEqual w (VObj la) (VObj lb) = false
   <-> exists key,
         obj_lookup key (obj_at (heap w) la)
         <> obj_lookup key (obj_at (heap w) lb)).
Proof.
  intros Ha Hb Hplain.
  pose proof (shallowEqual_iff_same_props w la lb Ha Hb Hplain) as Hiff.
  split; [exact Hiff|].
  rewrite <- not_true_iff_false, Hiff. unfold same_props. split.
  - apply different_props.
  - intros [key Hk] Hall. by apply Hk.
Qed.

(** X14. On values that are not objects, and on objects without own
    properties that are not enumerable, [shallowEqual] is symmetric. *)
Theorem shallowEqual_symmetric w a b :
  (forall l, a = VObj l \/ b = VObj l ->
     NoDup (obj_keys (obj_at (heap w) l)) /\ hidden (shape_at w l) = []) ->
  shallowEqual w a b = shallowEqual w b a.
Proof.
  intros Hnd.
  assert ((forall l, a <> VObj l) \/ (forall l, b <> VObj l) ->
          shallowEqual w a b = shallowEqual w b a) as Hprim.
  { intros H. rewrite (shallowEqual_primitive w a b) by done.
    rewrite (shallowEqual_primitive w b a) by tauto.
    apply bool_decide_ext. split; congruence. }
  destruct a as [| | | | |la|]; try (apply Hprim; left; by intros).
  destruct b as [| | | | |lb|]; try (apply Hprim; right; by intros).
  destruct (Hnd la (or_introl eq_refl)) as [Ha Hpa].
  destruct (Hnd lb (or_intror eq_refl)) as [Hb Hpb].
  apply eq_true_iff_eq.
  rewrite !shallowEqual_iff_same_props by done.
  unfold same_props. split; intros H key; by rewrite H.
Qed.

(** X15. [shallowEqual] is transitive through a middle value that is not
    an object with own properties that are not enumerable. *)
Theorem shallowEqual_transitive w a b c :
  (forall l, b = VObj l -> hidden (shape_at w l) = []) ->
  shallowEqual w a b = true ->
  shallowEqual w b c = true ->
  shallowEqual w a c = true.
Proof.
  intros Hplain Hab Hbc.
  destruct (decide (a = b)) as [->|Hne1]; [done|].
  destruct (decide (b = c)) as [->|Hne2]; [done|].
  destruct (decide (a = c)) as [->|Hne3]; [apply shallowEqual_same|].
  destruct a as [| | | | |la|];
    try (rewrite shallowEqual_primitive, bool_decide_eq_true in Hab;
         [done | left; by intros]).
  destruct b as [| | | | |lb|];
    try (rewrite shallowEqual_primitive, bool_decide_eq_true in Hab;
         [done | right; by intros]).
  destruct c as [| | | | |lc|];
    try (rewrite shallowEqual_primitive, bool_decide_eq_true in Hbc;
         [done | right; by intros]).
  apply shallowEqual_objects_true in Hab as [Hl1 H1]; [|congruence].
  apply shallowEqual_objects_true in Hbc as [Hl2 H2]; [|congruence].
  apply shallowEqual_objects_true; [congruence|].
  split; [congruence|]. intros key Hin.
  destruct (H1 key Hin) as [Hinb Hv1].
  rewrite (own_prop_plain w lb key (Hplain lb eq_refl)) in Hinb.
  apply obj_lookup_is_Some in Hinb.
  destruct (H2 key Hinb) as [Hinc Hv2]. split; [done | congruence].
Qed.

(** X13 to X15 on the views. *)
Lemma shallowEqual_decides_same_props_witness :
  (shallowEqual (set_heap demo_views empty_world) (VObj 0) (VObj 1) = true
   <-> same_props (obj_at (heap (set_heap demo_views empty_world)) 0)
         (obj_at (heap (set_heap demo_views empty_world)) 1)) /\
  (shallowEqual (set_heap demo_views empty_world) (VObj 0) (VObj 1) = false
   <-> exists key,
         obj_lookup key (obj_at (heap (set_heap demo_views empty_world)) 0)
         <> obj_lookup key
              (obj_at (heap (set_heap demo_views empty_world)) 1)).
Proof.
  apply (shallowEqual_decides_same_props (set_heap demo_views empty_world)
           0 1).
  - refine (bool_decide_unpack _ _). vm_compute. exact I.
  - refine (bool_decide_unpack _ _). vm_compute. exact I.
  - reflexivity.
Defined.

Lemma shallowEqual_symmetric_witness :
  shallowEqual (set_heap demo_views empty_world) (VObj 0) (VObj 3)
  = shallowEqual (set_heap demo_views empty_world) (VObj 3) (VObj 0).
Proof.
  apply (shallowEqual_symmetric (set_heap demo_views empty_world)
           (VObj 0) (VObj 3)).
  intros l [H|H]; injection H as <-;
    (split; [refine (bool_decide_unpack _ _); vm_compute; exact I
            | reflexivity]).
Defined.

Lemma shallowEqual_transitive_witness :
  shallowEqual (set_heap demo_views empty_world) (VObj 0) (VObj 2) = true.
Proof.
  apply (shallowEqual_transitive (set_heap demo_views empty_world)
           (VObj 0) (VObj 1) (VObj 2)).
  - intros l [= <-]. reflexivity.
  - vm_compute. reflexivity.
  - vm_compute. reflexivity.
Defined.

(** * Properties of [Connect] *)

Lemma obj_lookup_update key k v o :
  is_Some (obj_lookup k o) ->
  obj_lookup key (obj_update k v o)
  = if k =? key then Some v else obj_lookup key o.
Proof.
  induction o as [|[k' x] o IH]; simpl; [by intros [? ?]|].
  destruct (String.eqb_spec k' k) as [->|Hne]; simpl.
  - intros _. by destruct (k =? key).
  - intros H. rewrite (IH H).
    destruct (String.eqb_spec k' key) as [->|Hne']; [|done].
    destruct (String.eqb_spec k key); [congruence | done].
Qed.

Lemma obj_lookup_insert key n k v o :
  obj_lookup k o = None ->
  obj_lookup key (obj_insert n k v o)
  = if k =? key then Some v else obj_lookup key o.
Proof.
  induction o as [|[k' x] o IH]; simpl; [done|].
  destruct (String.eqb_spec k' k) as [->|Hne]; [done|]. intros H.
  destruct (index_of k') as [m|]; [destruct (m <? n)%N|]; simpl; try done.
  rewrite (IH H).
  destruct (String.eqb_spec k' key) as [->|Hne']; [|done].
  destruct (String.eqb_spec k key); [congruence | done].
Qed.

Lemma obj_lookup_app key a b :
  obj_lookup key (a ++ b) = or_else (obj_lookup key a) (obj_lookup key b).
Proof.
  induction a as [|[k v] a IH]; simpl; [done|]. by destruct (k =? key).
Qed.

Lemma obj_lookup_set key k v o :
  obj_lookup key (obj_set k v o)
  = if k =? key then Some v else obj_lookup key o.
Proof.
  unfold obj_set. destruct (obj_lookup k o) eqn:E.
  - apply obj_lookup_update. by eexists.
  - destruct (index_of k); [by apply obj_lookup_insert|].
    rewrite obj_lookup_app. simpl.
    destruct (String.eqb_spec k key) as [->|Hne].
    + by rewrite E.
    + by destruct (obj_lookup key o).
Qed.

Lemma obj_lookup_foldl key fields acc :
  obj_lookup key (foldl (fun o kv => obj_set kv.1 kv.2 o) acc fields)
  = or_else (obj_lookup key (reverse fields)) (obj_lookup key acc).
Proof.
  revert acc. induction fields as [|[k v] fields IH]; intros acc; [done|].
  simpl. rewrite IH, reverse_cons, obj_lookup_app, obj_lookup_set. simpl.
  destruct (obj_lookup key (reverse fields)); simpl; [done|].
  by destruct (k =? key).
Qed.

Lemma obj_lookup_reverse key o :
  NoDup (obj_keys o) -> obj_lookup key (reverse o) = obj_lookup key o.
Proof.
  unfold obj_keys. induction o as [|[k v] o IH]; [done|]. intros Hnd.
  apply NoDup_cons in Hnd as [Hk Hnd]. simpl in Hk.
  rewrite reverse_cons, obj_lookup_app, IH by done. simpl.
  destruct (String.eqb_spec k key) as [->|Hne].
  - apply obj_lookup_None in Hk. by rewrite Hk.
  - by destruct (obj_lookup key o).
Qed.

Lemma or_else_assoc a b c :
  or_else (or_else a b) c = or_else a (or_else b c).
Proof. by destruct a. Qed.

(** X16. The props handed to the wrapped component are a new object in
    which a property passed by the parent wins over one from
    [mapDispatchToProps], which wins over one from [mapStateToProps]. *)
Theorem enhance_precedence stateProps dispatchProps props w :
  NoDup (obj_keys (spread (heap w) stateProps)) ->
  NoDup (obj_keys (spread (heap w) dispatchProps)) ->
  NoDup (obj_keys (spread (heap w) props)) ->
  exists l enhancedProps,
    enhance stateProps dispatchProps props w
      = Done (VObj l) (set_heap (<[l := enhancedProps]> (heap w)) w) /\
    heap w !! l = None /\
    forall key,
      obj_lookup key enhancedProps
      = or_else (obj_lookup key (spread (heap w) props))
          (or_else (obj_lookup key (spread (heap w) dispatchProps))
                   (obj_lookup key (spread (heap w) stateProps))).
Proof.
  intros Hs Hd Hp. eexists _, _. split; [reflexivity|].
  split; [apply fresh_loc_heap|].
  intros key. unfold mk_obj. rewrite obj_lookup_foldl. simpl.
  rewrite !reverse_app, !obj_lookup_app, !obj_lookup_reverse by done.
  destruct (obj_lookup key (spread (heap w) props)); simpl; [done|].
  by destruct (obj_lookup key (spread (heap w) dispatchProps)),
              (obj_lookup key (spread (heap w) stateProps)).
Qed.

Section Connected.
Variable app : nat -> list value -> prog.

Lemma invoke_getState n w ls api :
  heap w !! ls = Some api ->
  obj_lookup "getState" api = Some (VFun FGetState) ->
  invoke (call app (S n)) (VObj ls) "getState" [] w
    = Done (currentState w) w.
Proof.
  intros Hls Hget. unfold invoke.
  erewrite bind_Done; cycle 1.
  { apply (read_own w ls "getState" (VFun FGetState)).
    unfold obj_at. by rewrite Hls. }
  reflexivity.
Qed.

(** X17. On a notification of the store the wrapper maps the current state
    to props and compares them with the ones it retained, an object
    without own properties that are not enumerable: with the same
    enumerable own properties it does nothing; with any difference it
    retains the new ones and forces exactly one update. *)
Theorem onStoreChange_decision n mstp w ls api c lp ln w1 :
  heap w !! ls = Some api ->
  obj_lookup "getState" api = Some (VFun FGetState) ->
  previousStateRef c = VObj lp ->
  call app (S n) mstp [currentState w] w = Done (VObj ln) w1 ->
  NoDup (obj_keys (obj_at (heap w1) lp)) ->
  NoDup (obj_keys (obj_at (heap w1) ln)) ->
  hidden (shape_at w1 lp) = [] ->
  exists c',
    onStoreChange (call app (S n)) mstp (VObj ls) c w = Done c' w1 /\
    (same_props (obj_at (heap w1) ln) (obj_at (heap w1) lp) -> c' = c) /\
    (~ same_props (obj_at (heap w1) ln) (obj_at (heap w1) lp) ->
     c' = Instance (VObj ln) (S (forcedUpdates c))).
Proof.
  intros Hls Hget Hprev Hcall Hlp Hln Hplain.
  pose proof (shallowEqual_iff_same_props w1 ln lp Hln Hlp Hplain) as Hiff.
  exists (if shallowEqual w1 (VObj ln) (VObj lp) then c
          else Instance (VObj ln) (S (forcedUpdates c))).
  split.
  - unfold onStoreChange.
    erewrite bind_Done; [|by eapply invoke_getState].
    erewrite bind_Done; [|exact Hcall].
    erewrite bind_Done; [|reflexivity]. cbv beta.
    rewrite Hprev. unfold id. by destruct (shallowEqual _ _ _).
  - split.
    + intros Hsame. apply Hiff in Hsame. by rewrite Hsame.
    + intros Hdiff. destruct (shallowEqual _ _ _) eqn:E; [|done].
      destruct Hdiff. by apply Hiff.
Qed.

(** X18. Rendered against a store object on which [getState] does not
    read as a function, as on the empty object that is the default value
    of the context when there is no provider, the wrapper fails with a
    [TypeError] before [mapStateToProps] is entered. *)
Theorem Connect_without_store n mstp mdtp w ls f props mounted :
  get_prop w (VObj ls) "getState" = Found f ->
  (forall g, f <> VFun g) ->
  Connect (call app (S n)) mstp mdtp (VObj ls) props mounted w
    = Fail TypeError w.
Proof.
  intros Hget Hnf. unfold Connect, invoke.
  unfold bind at 1. unfold bind at 1. unfold read at 1. rewrite Hget.
  destruct f as [| | | | | |g]; try reflexivity. by destruct (Hnf g).
Qed.
End Connected.

Section Rendering.
Variable app : nat -> list value -> prog.

(** X19. A render against a store object reads the state through
    [getState], enters [mapStateToProps] with it, then
    [mapDispatchToProps] with the store's [dispatch], and hands over the
    merged props; the first render retains the state props, a later one
    leaves the retained ones alone. *)
Theorem Connect_render n mstp mdtp w ls api d props mounted
    stateProps w1 dispatchProps w2 :
  heap w !! ls = Some api ->
  obj_lookup "getState" api = Some (VFun FGetState) ->
  obj_lookup "dispatch" api = Some d ->
  call app (S n) mstp [currentState w] w = Done stateProps w1 ->
  heap w ⊆ heap w1 ->
  call app (S n) mdtp [d] w1 = Done dispatchProps w2 ->
  NoDup (obj_keys (spread (heap w2) stateProps)) ->
  NoDup (obj_keys (spread (heap w2) dispatchProps)) ->
  NoDup (obj_keys (spread (heap w2) props)) ->
  exists l enhancedProps,
    Connect (call app (S n)) mstp mdtp (VObj ls) props mounted w
      = Done (VObj l, match mounted with
                      | Some c => c
                      | None => Instance stateProps 0
                      end)
          (set_heap (<[l := enhancedProps]> (heap w2)) w2) /\
    heap w2 !! l = None /\
    forall key,
      obj_lookup key enhancedProps
      = or_else (obj_lookup key (spread (heap w2) props))
          (or_else (obj_lookup key (spread (heap w2) dispatchProps))
                   (obj_lookup key (spread (heap w2) stateProps))).
Proof.
  intros Hls Hget Hdis Hs Hsub Hd Hn1 Hn2 Hn3.
  set (l := fresh_loc w2).
  set (ep := mk_obj (spread (heap w2) stateProps
                     ++ spread (heap w2) dispatchProps
                     ++ spread (heap w2) props)).
  exists l, ep. split; [|split].
  - unfold Connect.
    erewrite bind_Done; [|by eapply invoke_getState].
    erewrite bind_Done; [|exact Hs]. cbv zeta.
    erewrite bind_Done; cycle 1.
    { apply (read_own w1 ls "dispatch" d). unfold obj_at.
      by rewrite (lookup_weaken _ _ _ _ Hls Hsub). }
    erewrite bind_Done; [|exact Hd].
    erewrite bind_Done; [|reflexivity]. reflexivity.
  - apply fresh_loc_heap.
  - intros key. unfold ep, mk_obj. rewrite obj_lookup_foldl. simpl.
    rewrite !reverse_app, !obj_lookup_app, !obj_lookup_reverse by done.
    destruct (obj_lookup key (spread (heap w2) props)); simpl; [done|].
    by destruct (obj_lookup key (spread (heap w2) dispatchProps)),
                (obj_lookup key (spread (heap w2) stateProps)).
Qed.
End Rendering.

(** X16 on the views: [count] comes from the parent, [name] from the
    dispatch props, [label] from the parent. *)
Lemma enhance_precedence_witness :
  exists l enhancedProps,
    enhance (VObj 0) (VObj 3) (VObj 4) (set_heap demo_views empty_world)
      = Done (VObj l)
          (set_heap (<[l := enhancedProps]>
                       (heap (set_heap demo_views empty_world)))
             (set_heap demo_views empty_world)) /\
    heap (set_heap demo_views empty_world) !! l = None /\
    forall key,
      obj_lookup key enhancedProps
      = or_else
          (obj_lookup key (spread (heap (set_heap demo_views empty_world))
                             (VObj 4)))
          (or_else
             (obj_lookup key
                (spread (heap (set_heap demo_views empty_world)) (VObj 3)))
             (obj_lookup key
                (spread (heap (set_heap demo_views empty_world)) (VObj 0)))).
Proof.
  apply (enhance_precedence (VObj 0) (VObj 3) (VObj 4)
           (set_heap demo_views empty_world));
    refine (bool_decide_unpack _ _); vm_compute; exact I.
Defined.

Example enhance_runs :
  exists w,
    enhance (VObj 0) (VObj 3) (VObj 4) (set_heap demo_views empty_world)
      = Done (VObj 1001) w /\
    heap w !! 1001
      = Some [("count", VNum 7); ("name", VStr "ada"); ("label", VStr "x")].
Proof. eexists. split; vm_compute; reflexivity. Qed.

(** Array indices come first among the keys of an object, in ascending
    order. *)
Example keys_in_order :
  obj_keys (mk_obj [("b", VNum 1); ("10", VNum 2); ("a", VNum 3);
                    ("9", VNum 4); ("b", VNum 5); ("01", VNum 6)])
  = ["9"; "10"; "b"; "a"; "01"].
Proof. vm_compute. reflexivity. Qed.

(** A string spreads into its characters. *)
Example spread_string :
  spread ∅ (VStr "ab") = [("0", VStr "a"); ("1", VStr "b")].
Proof. vm_compute. reflexivity. Qed.

(** X17 on the connected counter: the state is 0 and [{count: 0}] was
    rendered last. *)
Lemma onStoreChange_decision_witness :
  exists c',
    onStoreChange (call demo_ui 2) mapState (VObj 2)
      (Instance (VObj 3) 0) demo_connected = Done c' demo_mapped /\
    (same_props (obj_at (heap demo_mapped) 1001)
       (obj_at (heap demo_mapped) 3) ->
     c' = Instance (VObj 3) 0) /\
    (~ same_props (obj_at (heap demo_mapped) 1001)
         (obj_at (heap demo_mapped) 3) ->
     c' = Instance (VObj 1001) (S (forcedUpdates (Instance (VObj 3) 0)))).
Proof.
  apply (onStoreChange_decision demo_ui 1 mapState demo_connected 2
           [("dispatch", VFun FDispatch); ("subscribe", VFun FSubscribe);
            ("getState", VFun FGetState)]
           (Instance (VObj 3) 0) 3 1001 demo_mapped).
  - vm_compute. reflexivity.
  - reflexivity.
  - reflexivity.
  - vm_compute. reflexivity.
  - refine (bool_decide_unpack _ _). vm_compute. exact I.
  - refine (bool_decide_unpack _ _). vm_compute. exact I.
  - reflexivity.
Defined.

(** The wrapper through three notifications: the state still 0, then 1
    after an increment, then 1 again.  Only the second forces an update. *)
Example onStoreChange_runs :
  exists w,
    (let* c1 := onStoreChange (call demo_ui 2) mapState (VObj 2)
                  (Instance (VObj 3) 0) in
     dispatch (call demo_ui 2) (VObj 0) ;;
     let* c2 := onStoreChange (call demo_ui 2) mapState (VObj 2) c1 in
     let* c3 := onStoreChange (call demo_ui 2) mapState (VObj 2) c2 in
     ret [c1; c2; c3]) demo_connected
    = Done [Instance (VObj 3) 0; Instance (VObj 1002) 1;
            Instance (VObj 1002) 1] w
    /\ heap w !! 1002 = Some [("count", VNum 1)].
Proof. eexists. split; vm_compute; reflexivity. Qed.

(** Retained props with a property that is not enumerable: the new props
    [{length: 1}] are taken for the retained array [['v']], and no update
    is forced, although the two have no enumerable property in common. *)
Example onStoreChange_and_hidden_properties :
  exists w,
    onStoreChange (call demo_ui 2) mapLength (VObj 2) (Instance (VObj 1) 0)
      demo_listing
    = Done (Instance (VObj 1) 0) w /\
    heap w !! 1001 = Some [("length", VNum 1)] /\
    heap w !! 1 = Some [("0", VStr "v")].
Proof. eexists. by_computation. Qed.

(** X18 on the empty object of the counter store. *)
Lemma Connect_without_store_witness :
  Connect (call demo_ui 1) mapState mapDispatch (VObj 1) VUndef None
    (demo_store VUndef)
  = Fail TypeError (demo_store VUndef).
Proof.
  apply (Connect_without_store demo_ui 0 mapState mapDispatch
           (demo_store VUndef) 1 VUndef VUndef None).
  - vm_compute. reflexivity.
  - intros g. discriminate.
Defined.

(** X19 on the connected counter, first render, the parent passing
    [{count: 0}]. *)
Lemma Connect_render_witness :
  exists l enhancedProps,
    Connect (call demo_ui 2) mapState mapDispatch (VObj 2) (VObj 3) None
      demo_connected
      = Done (VObj l, Instance (VObj 1001) 0)
          (set_heap (<[l := enhancedProps]> (heap demo_bound)) demo_bound) /\
    heap demo_bound !! l = None /\
    forall key,
      obj_lookup key enhancedProps
      = or_else (obj_lookup key (spread (heap demo_bound) (VObj 3)))
          (or_else (obj_lookup key (spread (heap demo_bound) (VObj 1002)))
                   (obj_lookup key (spread (heap demo_bound) (VObj 1001)))).
Proof.
  apply (Connect_render demo_ui 1 mapState mapDispatch demo_connected 2
           [("dispatch", VFun FDispatch); ("subscribe", VFun FSubscribe);
            ("getState", VFun FGetState)]
           (VFun FDispatch) (VObj 3) None (VObj 1001) demo_mapped
           (VObj 1002) demo_bound).
  - vm_compute. reflexivity.
  - reflexivity.
  - reflexivity.
  - vm_compute. reflexivity.
  - apply insert_subseteq. vm_compute. reflexivity.
  - vm_compute. reflexivity.
  - refine (bool_decide_unpack _ _). vm_compute. exact I.
  - refine (bool_decide_unpack _ _). vm_compute. exact I.
  - refine (bool_decide_unpack _ _). vm_compute. exact I.
Defined.

Example Connect_runs :
  exists w,
    Connect (call demo_ui 2) mapState mapDispatch (VObj 2) (VObj 3) None
      demo_connected
      = Done (VObj 1003, Instance (VObj 1001) 0) w /\
    heap w !! 1003
      = Some [("count", VNum 0); ("increment", VFun FDispatch)] /\
    invocations (log w)
      = [(mapState, [VNum 0]); (mapDispatch, [VFun FDispatch])] /\
    listeners w = listeners demo_connected.
Proof.
  eexists. split; [vm_compute; reflexivity|].
  split; [vm_compute; reflexivity|]. split; vm_compute; reflexivity.
Qed.

(** ** Subscribing and unsubscribing during a notification *)

Section Snapshot.
Variable app : nat -> list value -> prog.

Lemma forEach_tidy n ls :
  Forall (tidy app n) ls ->
  forall w, exists w',
    forEach ls (fun listener => call app n listener []) w = Done tt w' /\
    currentState w' = currentState w /\
    invocations (log w')
      = invocations (log w) ++ map (fun l => (l, [])) ls.
Proof.
  induction 1 as [|l ls Hl _ IH]; intros w.
  - exists w. split; [done|]. split; [done|]. by rewrite app_nil_r.
  - destruct (Hl w) as (v & w1 & Hc & Hs & Hlog).
    destruct (IH w1) as (w' & Hf & Hs' & Hi).
    exists w'. split.
    + cbn [forEach]. unfold bind at 1. by rewrite Hc.
    + split; [congruence|]. rewrite Hi, Hlog, invocations_app. simpl.
      by rewrite <- app_assoc.
Qed.

(** X20. Who is notified by a dispatch is settled when the notification
    starts: listeners that subscribe or unsubscribe while they are notified
    change the list for later dispatches only, and every listener listed
    at the start is entered once, in order. *)
Theorem dispatch_notifies_the_list_at_start n w la s' w1 :
  obj_get (obj_at (heap w) la) "type" <> VUndef ->
  call app n (rootReducer w) [currentState w; VObj la] w = Done s' w1 ->
  Forall (tidy app n) (listeners w1) ->
  exists w',
    dispatch (call app n) (VObj la) w = Done (VObj la) w' /\
    currentState w' = s' /\
    invocations (log w')
      = invocations (log w1) ++ map (fun l => (l, [])) (listeners w1).
Proof.
  intros Hty Hred Hls.
  destruct (forEach_tidy n _ Hls (set_currentState s' w1))
    as (w' & Hf & Hs & Hi).
  exists w'. split; [|by split].
  rewrite dispatch_typed by (by apply own_type_defined).
  unfold bind at 1. rewrite Hred. unfold bind at 1, modify at 1.
  unfold bind at 1, get at 1. unfold bind at 1.
  change (listeners (set_currentState s' w1)) with (listeners w1).
  by rewrite Hf.
Qed.
End Snapshot.

Lemma inert_tidy app n l : inert app n l [] -> tidy app n l.
Proof.
  intros Hin w. destruct (Hin w) as (v & h' & _ & Hc).
  by eexists _, _.
Qed.

Lemma demo_ui_recruiter_tidy n : tidy demo_ui (S (S n)) recruiter.
Proof.
  intros w. eexists _, _. split; [reflexivity|]. split; [done|].
  simpl. by rewrite <- app_assoc.
Qed.

(** X20 on the counter store with the recruiter. *)
Lemma dispatch_notifies_the_list_at_start_witness :
  exists w',
    dispatch (call demo_ui 2) (VObj 0) demo_recruiting = Done (VObj 0) w' /\
    currentState w' = VNum 1 /\
    invocations (log w')
      = invocations (log (set_log demo_reduction demo_recruiting))
          ++ map (fun l => (l, []))
               (listeners (set_log demo_reduction demo_recruiting)).
Proof.
  apply (dispatch_notifies_the_list_at_start demo_ui 2 demo_recruiting 0
           (VNum 1) (set_log demo_reduction demo_recruiting)).
  - vm_compute. discriminate.
  - vm_compute. reflexivity.
  - repeat constructor.
    + apply inert_tidy, demo_ui_silent_inert.
    + apply demo_ui_recruiter_tidy.
    + apply inert_tidy, demo_ui_reading_inert.
Defined.

(** The recruiter at work: the listener it subscribes is entered by the
    next dispatch, not by the one in progress. *)
Example recruiter_runs :
  exists w,
    (dispatch (call demo_ui 2) (VObj 0) ;;
     dispatch (call demo_ui 2) (VObj 0)) demo_recruiting
    = Done (VObj 0) w /\
    invocations (log w)
    = [(counterReducer, [VNum 0; VObj 0]);
       (silentListener, []); (recruiter, []); (readingListener, []);
       (counterReducer, [VNum 1; VObj 0]);
       (silentListener, []); (recruiter, []); (readingListener, []);
       (silentListener, [])].
Proof. eexists. split; vm_compute; reflexivity. Qed.

(** The dismisser at work: the listener it unsubscribes is still entered
    by the dispatch in progress, and not by the next. *)
Example dismisser_runs :
  exists w,
    (dispatch (call demo_ui 3) (VObj 0) ;;
     dispatch (call demo_ui 3) (VObj 0)) demo_dismissing
    = Done (VObj 0) w /\
    listeners w = [dismisser] /\
    invocations (log w)
    = [(counterReducer, [VNum 0; VObj 0]);
       (dismisser, []); (readingListener, []);
       (counterReducer, [VNum 1; VObj 0]);
       (dismisser, [])].
Proof.
  eexists. split; [vm_compute; reflexivity|].
  split; vm_compute; reflexivity.
Qed.
